(** * Air-quality pipeline: unzip_and_modify_csv.py

    A shallow embedding of [src/unzip_and_modify_csv.py] and the properties
    of its transfer primitive, file transform unit and retry driver.

    The script talks to three stores: the S3 bucket, the local scratch
    directory [/tmp] and the failure ledger [/tmp/failed_files.txt].  They
    are the fields of one [World] record that every operation threads
    through; a Python exception is the [Raise] outcome of a computation.
    [print] calls only write to stdout and are left out. *)

From Stdlib Require Import ZArith Ascii String.
From stdpp Require Import gmap strings list fin_maps.

Local Open Scope string_scope.
Local Open Scope list_scope.

(** ** Python string and path primitives used by the script *)

Module Str.

(** [s.endswith(suffix)] *)
Definition endswith (s suffix : string) : bool :=
  (String.length suffix <=? String.length s)%nat
  && String.eqb
       (substring (String.length s - String.length suffix)
                  (String.length suffix) s)
       suffix.

(** [s.replace(old, new)] for a non-empty [old]: every occurrence, found
    left to right without overlap.  [skip] counts the characters of a
    matched occurrence that are still to be dropped. *)
Fixpoint replace_from (old new : string) (skip : nat) (s : string) : string :=
  match s with
  | EmptyString => EmptyString
  | String c s' =>
      match skip with
      | S k => replace_from old new k s'
      | O =>
          if String.prefix old s
          then new +:+ replace_from old new (String.length old - 1) s'
          else String c (replace_from old new 0 s')
      end
  end.

Definition replace (s old new : string) : string := replace_from old new 0 s.

(** [s.split(sep)] for a one-character separator: always at least one
    component, empty components kept. *)
Fixpoint split (s : string) (sep : ascii) : list string :=
  match s with
  | EmptyString => [EmptyString]
  | String c s' =>
      if Ascii.eqb c sep then EmptyString :: split s' sep
      else match split s' sep with
           | h :: t => String c h :: t
           | [] => [String c EmptyString]
           end
  end.

(** A Python string is a sequence of code points; a [string] here holds
    their UTF-8 bytes.  Concatenation, comparison, the search for an ASCII
    separator and the suffix test agree on the two; slicing and [strip]
    count code points, which [code_points] recovers. *)

(** A continuation byte of UTF-8, [10xxxxxx]. *)
Definition is_continuation (c : ascii) : bool :=
  let n := nat_of_ascii c in ((128 <=? n) && (n <? 192))%nat.

Definition starts_continued (s : string) : bool :=
  match s with
  | String c _ => is_continuation c
  | EmptyString => false
  end.

(** The code points of a string, each as its bytes: a byte and the
    continuation bytes that follow it. *)
Fixpoint code_points (s : string) : list string :=
  match s with
  | EmptyString => []
  | String c s' =>
      match code_points s' with
      | cp :: rest =>
          if starts_continued cp then String c cp :: rest
          else String c EmptyString :: cp :: rest
      | [] => [String c EmptyString]
      end
  end.

(** [''.join(l)] *)
Definition join (l : list string) : string := foldr String.append EmptyString l.

Definition utf8 (bytes : list nat) : string :=
  string_of_list_ascii (ascii_of_nat <$> bytes).

(** The code points for which [str.isspace] holds: U+0009 to U+000D,
    U+001C to U+0020, U+0085, U+00A0, U+1680, U+2000 to U+200A, U+2028,
    U+2029, U+202F, U+205F and U+3000. *)
Definition whitespace : list string :=
  ((λ n, utf8 [n]) <$> (seq 9 5 ++ seq 28 5))
  ++ [utf8 [194; 133]; utf8 [194; 160]; utf8 [225; 154; 128]]
  ++ ((λ n, utf8 [226; 128; n]) <$> seq 128 11)
  ++ [utf8 [226; 128; 168]; utf8 [226; 128; 169]; utf8 [226; 128; 175];
      utf8 [226; 129; 159]; utf8 [227; 128; 128]].

Definition isspace (cp : string) : bool := existsb (String.eqb cp) whitespace.

Fixpoint lstrip_points (cps : list string) : list string :=
  match cps with
  | [] => []
  | cp :: rest => if isspace cp then lstrip_points rest else cps
  end.

Fixpoint rstrip_points (cps : list string) : list string :=
  match cps with
  | [] => []
  | cp :: rest =>
      match rstrip_points rest with
      | [] => if isspace cp then [] else [cp]
      | r => cp :: r
      end
  end.

(** [s.strip()] *)
Definition strip (s : string) : string :=
  join (rstrip_points (lstrip_points (code_points s))).

(** [s[0:n]] *)
Definition slice_to (n : nat) (s : string) : string :=
  join (take n (code_points s)).

(** [c in s] for a character [c] *)
Fixpoint mem (c : ascii) (s : string) : bool :=
  match s with
  | EmptyString => false
  | String c' s' => Ascii.eqb c' c || mem c s'
  end.

End Str.

(** [all_continued t]: every byte of [t] is a continuation byte. *)
Fixpoint all_continued (t : string) : bool :=
  match t with
  | EmptyString => true
  | String c t' => Str.is_continuation c && all_continued t'
  end.

(** One code point: a byte and continuation bytes. *)
Definition chunk (cp : string) : Prop :=
  match cp with
  | String _ t => all_continued t = true
  | EmptyString => False
  end.

(** The shape of the lists [Str.code_points] gives: code points, of which
    only the first may start with a continuation byte. *)
Definition canonical (cps : list string) : Prop :=
  Forall chunk cps
  ∧ Forall (λ cp, Str.starts_continued cp = false) (tail cps).

Module OsPath.

(** [os.path.basename(p)]: what follows the last slash.  [cur] is the
    candidate component, restarted after every slash. *)
Fixpoint basename_from (cur p : string) : string :=
  match p with
  | EmptyString => cur
  | String c p' =>
      if Ascii.eqb c "/" then basename_from p' p' else basename_from cur p'
  end.

Definition basename (p : string) : string := basename_from p p.

(** [os.path.join(a, b)] of posixpath *)
Definition join (a b : string) : string :=
  if String.prefix "/" b then b
  else if String.eqb a "" || Str.endswith a "/" then a +:+ b
  else a +:+ "/" +:+ b.

End OsPath.

(** ** Text-file reading

    [open(path, "r")] translates the line endings CR LF and CR to LF;
    iterating the file yields the lines, the last one also when it has no
    terminator. *)

Definition LF : ascii := "010"%char.
Definition CR : ascii := "013"%char.

Fixpoint universal_newlines (s : string) : string :=
  match s with
  | EmptyString => EmptyString
  | String c s' =>
      if Ascii.eqb c CR then
        match s' with
        | String c' _ =>
            if Ascii.eqb c' LF then universal_newlines s'
            else String LF (universal_newlines s')
        | EmptyString => String LF EmptyString
        end
      else String c (universal_newlines s')
  end.

Fixpoint drop_last_empty (l : list string) : list string :=
  match l with
  | [] => []
  | [x] => if String.eqb x "" then [] else [x]
  | x :: l' => x :: drop_last_empty l'
  end.

(** The lines of a text file, terminators removed. *)
Definition file_lines (content : string) : list string :=
  drop_last_empty (Str.split (universal_newlines content) LF).

(** ** The world the script runs in *)

(** Observable actions, in the order they happen. *)
Inductive event : Type :=
  | EvDownload (key path : string) (ok : bool)   (* s3.download_file *)
  | EvUpload (path key : string) (ok : bool)     (* s3.upload_file *)
  | EvDelete (key : string) (ok : bool)          (* s3.delete_object *)
  | EvSleep (secs : Z)                           (* time.sleep *)
  | EvLogFailure (key : string).                 (* log_failure *)

(** - [s3]: the bucket ['openaq-sensor-data'], object key to body;
    - [fs]: the scratch files under [/tmp], path to content;
    - [ledger]: the content of [FAILED_LOG], [None] while the file does not
      exist.  It is kept apart from [fs]: no scratch path, which ends in
      [.gz] or [.csv], is ["/tmp/failed_files.txt"];
    - [faults]: what the network does to the coming S3 requests, one entry
      per request, [true] for a request that raises; no entry, no fault;
    - [uuids]: how many [uuid.uuid4()] were drawn;
    - [trace]: the actions so far. *)
Record World : Type := mkWorld {
  s3 : gmap string string;
  fs : gmap string string;
  ledger : option string;
  faults : list bool;
  uuids : nat;
  trace : list event
}.

Definition set_s3 (m : gmap string string) (w : World) : World :=
  mkWorld m (fs w) (ledger w) (faults w) (uuids w) (trace w).
Definition set_fs (m : gmap string string) (w : World) : World :=
  mkWorld (s3 w) m (ledger w) (faults w) (uuids w) (trace w).
Definition set_ledger (l : option string) (w : World) : World :=
  mkWorld (s3 w) (fs w) l (faults w) (uuids w) (trace w).
Definition set_faults (l : list bool) (w : World) : World :=
  mkWorld (s3 w) (fs w) (ledger w) l (uuids w) (trace w).
Definition set_uuids (n : nat) (w : World) : World :=
  mkWorld (s3 w) (fs w) (ledger w) (faults w) n (trace w).
Definition emit (e : event) (w : World) : World :=
  mkWorld (s3 w) (fs w) (ledger w) (faults w) (uuids w) (trace w ++ [e]).

(** Python exceptions; every one of them is an [Exception]. *)
Inductive exn : Type :=
  | S3Error            (* botocore / boto3 transfer errors *)
  | FileNotFoundError
  | GzipError          (* gzip.BadGzipFile, EOFError, zlib.error *)
  | PandasError        (* parser errors, KeyError of pivot_table, ... *)
  | ValueError
  | OverflowError
  | IndexError.

Inductive result (A : Type) : Type :=
  | Ok (a : A)
  | Raise (e : exn).
Arguments Ok {A} a.
Arguments Raise {A} e.

(** A computation: the outcome and the world it leaves. *)
Definition M (A : Type) : Type := World → result A * World.

Definition ret {A} (a : A) : M A := λ w, (Ok a, w).
Definition raise {A} (e : exn) : M A := λ w, (Raise e, w).
Definition bind {A B} (m : M A) (k : A → M B) : M B :=
  λ w, match m w with
       | (Ok a, w1) => k a w1
       | (Raise e, w1) => (Raise e, w1)
       end.

#[global] Instance M_ret : MRet M := @ret.
#[global] Instance M_bind : MBind M := λ A B k m, bind m k.

(** [try: body / except Exception: handler] *)
Definition try_except {A} (body : M A) (handler : exn → M A) : M A :=
  λ w, match body w with
       | (Ok a, w1) => (Ok a, w1)
       | (Raise e, w1) => handler e w1
       end.

(** [try: body / finally: cleanup]: the cleanup runs on both exits; an
    exception of the cleanup replaces the outcome of the body. *)
Definition try_finally {A} (body : M A) (cleanup : M unit) : M A :=
  λ w, match body w with
       | (r, w1) =>
           match cleanup w1 with
           | (Ok _, w2) => (r, w2)
           | (Raise e, w2) => (Raise e, w2)
           end
       end.

(** *** Primitives *)

(** The network decides the fate of the next S3 request. *)
Definition s3_request : M unit :=
  λ w, match faults w with
       | true :: rest => (Raise S3Error, set_faults rest w)
       | false :: rest => (Ok (), set_faults rest w)
       | [] => (Ok (), w)
       end.

(** [s3.upload_file(path, bucket, key)]: a missing local file raises before
    any request is sent. *)
Definition upload_file (path key : string) : M unit :=
  λ w, match fs w !! path with
       | None => (Raise FileNotFoundError, emit (EvUpload path key false) w)
       | Some body =>
           match s3_request w with
           | (Ok _, w1) =>
               (Ok (), emit (EvUpload path key true)
                            (set_s3 (<[key := body]> (s3 w1)) w1))
           | (Raise e, w1) => (Raise e, emit (EvUpload path key false) w1)
           end
       end.

(** [s3.download_file(bucket, key, path)]: a missing object is an error of
    the request; a failed download leaves no file behind. *)
Definition download_file (key path : string) : M unit :=
  λ w, match s3_request w with
       | (Ok _, w1) =>
           match s3 w1 !! key with
           | Some body =>
               (Ok (), emit (EvDownload key path true)
                            (set_fs (<[path := body]> (fs w1)) w1))
           | None => (Raise S3Error, emit (EvDownload key path false) w1)
           end
       | (Raise e, w1) => (Raise e, emit (EvDownload key path false) w1)
       end.

(** [s3.delete_object(Bucket=bucket, Key=key)]: deleting an absent key is
    not an error. *)
Definition delete_object (key : string) : M unit :=
  λ w, match s3_request w with
       | (Ok _, w1) =>
           (Ok (), emit (EvDelete key true) (set_s3 (delete key (s3 w1)) w1))
       | (Raise e, w1) => (Raise e, emit (EvDelete key false) w1)
       end.

(** The longest sleep CPython takes: the number of nanoseconds has to fit
    a signed 64-bit integer. *)
Definition sleep_max : Z := 9223372036.

(** [time.sleep(secs)]: a length that does not convert is an
    [OverflowError], a negative one a [ValueError]. *)
Definition sleep (secs : Z) : M unit :=
  λ w, if (sleep_max <? Z.abs secs)%Z then (Raise OverflowError, w)
       else if (secs <? 0)%Z then (Raise ValueError, w)
       else (Ok (), emit (EvSleep secs) w).

(** A length [time.sleep] accepts. *)
Definition sleepable (secs : Z) : Prop := (0 ≤ secs ≤ sleep_max)%Z.

(** [if os.path.exists(path): os.remove(path)] *)
Definition remove_if_exists (path : string) : M unit :=
  λ w, match fs w !! path with
       | Some _ => (Ok (), set_fs (delete path (fs w)) w)
       | None => (Ok (), w)
       end.

(** ** Failure ledger (lines 15-25) *)

(** The file after [open(FAILED_LOG, "a")] and one [write(file + "\n")];
    opening for append creates a missing file. *)
Definition ledger_append (file : string) (l : option string) : option string :=
  Some (default "" l +:+ file +:+ String LF "").

(** [log_failure(file)] *)
Definition log_failure (file : string) : M unit :=
  λ w, (Ok (), emit (EvLogFailure file)
                    (set_ledger (ledger_append file (ledger w)) w)).

(** [read_log_failure()] *)
Definition read_log_failure : M (list string) :=
  λ w, match ledger w with
       | None => (Raise FileNotFoundError, w)
       | Some content => (Ok (Str.strip <$> file_lines content), w)
       end.

(** ** Transfer primitive (lines 27-41) *)

(** The [while attempt < retry] loop; [n] bounds the number of iterations
    still to run, [upload_loop_fuel] shows that the bound given by
    [upload_with_retry] is never the reason the loop stops. *)
Fixpoint upload_loop (n : nat) (path file : string) (retry delay attempt : Z)
  : M unit :=
  match n with
  | O => ret ()
  | S n' =>
      if (attempt <? retry)%Z then
        λ w, match upload_file path file w with
             | (Ok _, w1) => (Ok (), w1)                            (* break *)
             | (Raise _, w1) =>
                 let attempt := (attempt + 1)%Z in
                 if (attempt <? retry)%Z then
                   (sleep delay ;;
                    upload_loop n' path file retry delay attempt) w1
                 else
                   (log_failure file ;;
                    upload_loop n' path file retry delay attempt) w1
             end
      else ret ()
  end.

Definition upload_with_retry (path file : string) (retry delay : Z) : M unit :=
  upload_loop (Z.to_nat retry) path file retry delay 0.

(** ** Tabular data

    A parsed CSV file, as far as the script looks at it: [df.empty] holds
    when an axis has length zero. *)
Record DataFrame : Type := mkDataFrame {
  columns : list string;
  rows : list (list string)
}.

Definition df_empty (df : DataFrame) : bool :=
  match columns df, rows df with
  | [], _ | _, [] => true
  | _, _ => false
  end.

(** ** Key naming (lines 47-52) *)

Definition wide_prefix (city location_id year : string) : string :=
  city +:+ "/wide/" +:+ location_id +:+ "/" +:+ year +:+ "/".

Definition archive_prefix (city location_id year : string) : string :=
  city +:+ "/archive/" +:+ location_id +:+ "/" +:+ year +:+ "/".

Definition file_name_csv (file : string) : string :=
  Str.replace (OsPath.basename file) ".csv.gz" ".csv".

Definition wide_file (file city location_id year : string) : string :=
  OsPath.join (wide_prefix city location_id year) (file_name_csv file).

Definition archive_file (file city location_id year : string) : string :=
  OsPath.join (archive_prefix city location_id year) (file_name_csv file).

(** The external collaborators: the random source of [uuid.uuid4()] (the
    text of the n-th draw), gzip decompression, and the pandas calls
    [read_csv], [pivot_table] followed by [insert] of the sensor column,
    and [to_csv].  [None] stands for a call that raises. *)
Class Collaborators : Type := {
  uuid4 : nat → string;
  gunzip : string → option string;
  read_csv : string → option DataFrame;
  pivot_wide : DataFrame → string → option DataFrame;
  to_csv : DataFrame → string
}.

Section Pipeline.

Context `{Collaborators}.

Definition fresh_uuid : M string :=
  λ w, (Ok (uuid4 (uuids w)), set_uuids (S (uuids w)) w).

(** Lines 59-61: [csv_path] is opened for writing, hence created, before
    the compressed file is read. *)
Definition gunzip_file (gz_path csv_path : string) : M unit :=
  λ w, match fs w !! gz_path with
       | None => (Raise FileNotFoundError, w)
       | Some z =>
           match gunzip z with
           | Some data => (Ok (), set_fs (<[csv_path := data]> (fs w)) w)
           | None => (Raise GzipError, set_fs (<[csv_path := ""]> (fs w)) w)
           end
       end.

(** [pd.read_csv(csv_path)] *)
Definition pd_read_csv (csv_path : string) : M DataFrame :=
  λ w, match fs w !! csv_path with
       | None => (Raise FileNotFoundError, w)
       | Some content =>
           match read_csv content with
           | Some df => (Ok df, w)
           | None => (Raise PandasError, w)
           end
       end.

(** Lines 75-77: pivot, insert the sensor column, write [wide_path]. *)
Definition write_wide (df : DataFrame) (location_id wide_path : string)
  : M unit :=
  λ w, match pivot_wide df location_id with
       | Some wide => (Ok (), set_fs (<[wide_path := to_csv wide]> (fs w)) w)
       | None => (Raise PandasError, w)
       end.

(** Lines 65-82 and 98-115, common to the two branches. *)
Definition archive_and_widen
    (file csv_path wide_path archive wide location_id : string) : M unit :=
  df ← pd_read_csv csv_path;
  (if df_empty df then raise ValueError
   else upload_with_retry csv_path archive 5 2) ;;
  delete_object file ;;
  write_wide df location_id wide_path ;;
  upload_with_retry wide_path wide 5 2 ;;
  delete_object file.

(** The [try] block of the compressed branch (lines 56-82). *)
Definition gz_body
    (file gz_path csv_path wide_path archive wide location_id : string)
  : M unit :=
  download_file file gz_path ;;
  gunzip_file gz_path csv_path ;;
  archive_and_widen file csv_path wide_path archive wide location_id.

(** The [try] block of the plain branch (lines 95-115). *)
Definition csv_body
    (file csv_path wide_path archive wide location_id : string) : M unit :=
  download_file file csv_path ;;
  archive_and_widen file csv_path wide_path archive wide location_id.

(** ** File transform unit (lines 43-123) *)
Definition transform_csv (file city location_id year : string) : M unit :=
  u1 ← fresh_uuid; u2 ← fresh_uuid; u3 ← fresh_uuid;
  let gz_path := "/tmp/temp_" +:+ u1 +:+ ".gz" in
  let csv_path := "/tmp/temp_" +:+ u2 +:+ ".csv" in
  let wide_path := "/tmp/wide_" +:+ u3 +:+ ".csv" in
  let wide := wide_file file city location_id year in
  let archive := archive_file file city location_id year in
  if Str.endswith file "csv.gz" then
    try_finally
      (try_except
         (gz_body file gz_path csv_path wide_path archive wide location_id)
         (λ _, log_failure file))
      (remove_if_exists gz_path ;;
       remove_if_exists csv_path ;;
       remove_if_exists wide_path)
  else if Str.endswith file ".csv" then
    try_finally
      (try_except
         (csv_body file csv_path wide_path archive wide location_id)
         (λ _, log_failure file))
      (remove_if_exists csv_path ;;
       remove_if_exists wide_path)
  else ret ().

(** ** Retry driver (lines 143-169) *)

(** [l[i]] *)
Definition index {A} (l : list A) (i : nat) : M A :=
  match l !! i with
  | Some x => ret x
  | None => raise IndexError
  end.

(** Lines 150-152: the location id and the year of a failed key. *)
Definition parse_failed_file (failed_file : string) : M (string * string) :=
  let failed_file_name_split := Str.split failed_file "-" in
  failed_location_id ← index failed_file_name_split 1;
  field ← index failed_file_name_split 2;
  ret (failed_location_id, Str.slice_to 4 field).

(** Lines 154-162: [for failure_attempt in range(n)] around a [try] that
    breaks on success and sleeps 20 seconds on an exception; the result
    is the flag [success]. *)
Fixpoint attempts (n : nat) (act : M unit) : M bool :=
  match n with
  | O => ret false
  | S n' =>
      λ w, match act w with
           | (Ok _, w1) => (Ok true, w1)
           | (Raise _, w1) => (sleep 20 ;; attempts n' act) w1
           end
  end.

(** One turn of the loop over the failed files (lines 149-165). *)
Definition retry_one (failed_file : string) : M bool :=
  '(failed_location_id, failed_year) ← parse_failed_file failed_file;
  attempts 5 (transform_csv (Str.strip failed_file) "lyon"
                            failed_location_id failed_year).

(** Lines 148-165: the files that are still failing, in order. *)
Fixpoint retry_each (failed_files_list still_failed : list string)
  : M (list string) :=
  match failed_files_list with
  | [] => ret still_failed
  | failed_file :: rest =>
      retry_one failed_file ≫= λ success : bool,
      retry_each rest
        (if success then still_failed else still_failed ++ [failed_file])
  end.

(** Lines 167-169: [open(FAILED_LOG, "w")] and one line per file. *)
Definition write_ledger (files : list string) : M unit :=
  λ w, (Ok (),
        set_ledger
          (Some (foldr (λ file acc, file +:+ String LF "" +:+ acc) "" files))
          w).

Definition retry_failed_files : M unit :=
  failed_files_list ← read_log_failure;
  still_failed ← retry_each failed_files_list [];
  write_ledger still_failed.

(** ** The retry passes of [main] (lines 181-191) *)

(** [os.path.getsize(FAILED_LOG)] *)
Definition getsize_ledger : M nat :=
  λ w, match ledger w with
       | Some content => (Ok (String.length content), w)
       | None => (Raise FileNotFoundError, w)
       end.

(** The body of the [try]: [true] when the loop goes on, [false] on
    [break]. *)
Definition retry_pass : M bool :=
  getsize_ledger ≫= λ size : nat,
  if Nat.eqb size 0 then ret false
  else (retry_failed_files ;; ret true).

(** [for attempt in range(n)]: only [FileNotFoundError] is caught, and
    it ends the loop. *)
Fixpoint retry_passes (n : nat) : M unit :=
  match n with
  | O => ret ()
  | S n' =>
      λ w, match retry_pass w with
           | (Ok true, w1) => retry_passes n' w1
           | (Ok false, w1) => (Ok (), w1)
           | (Raise FileNotFoundError, w1) => (Ok (), w1)
           | (Raise e, w1) => (Raise e, w1)
           end
  end.

Definition main_retry : M unit := retry_passes 5.

(** ** Names for the parts of a call of [transform_csv] *)

(** The scratch paths of a call entered after [n] uuids were drawn. *)
Definition gz_path_at (n : nat) : string :=
  "/tmp/temp_" +:+ uuid4 n +:+ ".gz".
Definition csv_path_at (n : nat) : string :=
  "/tmp/temp_" +:+ uuid4 (S n) +:+ ".csv".
Definition wide_path_at (n : nat) : string :=
  "/tmp/wide_" +:+ uuid4 (S (S n)) +:+ ".csv".

(** The world once the three paths are drawn. *)
Definition after_draws (w : World) : World :=
  set_uuids (S (S (S (uuids w)))) w.

(** The [try] block run on a recognized key: steps fetch, decode,
    validate, archive, delete, reshape, upload and delete. *)
Definition try_block (file city location_id year : string) (n : nat)
  : M unit :=
  let wide := wide_file file city location_id year in
  let archive := archive_file file city location_id year in
  if Str.endswith file "csv.gz" then
    gz_body file (gz_path_at n) (csv_path_at n) (wide_path_at n)
            archive wide location_id
  else
    csv_body file (csv_path_at n) (wide_path_at n) archive wide location_id.

(** The scratch files the branch taken may create, which are those its
    [finally] removes. *)
Definition scratch_files (file : string) (n : nat) : list string :=
  if Str.endswith file "csv.gz"
  then [gz_path_at n; csv_path_at n; wide_path_at n]
  else [csv_path_at n; wide_path_at n].

(** The table held by a stored object, as the branch taken decodes it. *)
Definition tabular_content (file body : string) : option DataFrame :=
  if Str.endswith file "csv.gz" then gunzip body ≫= read_csv
  else read_csv body.

End Pipeline.

(** ** The key naming convention, as the specification words it *)

(** A file name without its compression suffix [.gz]. *)
Definition without_compression_suffix (filename : string) : string :=
  if Str.endswith filename ".gz"
  then substring 0 (String.length filename - 3) filename
  else filename.

Definition archive_target (location location_id year filename : string)
  : string :=
  location +:+ "/archive/" +:+ location_id +:+ "/" +:+ year +:+ "/"
  +:+ without_compression_suffix filename.

Definition wide_target (location location_id year filename : string)
  : string :=
  location +:+ "/wide/" +:+ location_id +:+ "/" +:+ year +:+ "/"
  +:+ without_compression_suffix filename.

(** ** Reading a run *)

(** The actions a computation added to the trace. *)
Definition new_events (w w' : World) : list event :=
  drop (length (trace w)) (trace w').

(** The outcomes of the upload attempts among [evs], in order. *)
Definition upload_outcomes (evs : list event) : list bool :=
  omap (λ e, match e with EvUpload _ _ ok => Some ok | _ => None end) evs.

(** The keys of the upload attempts among [evs]. *)
Definition upload_targets (evs : list event) : list string :=
  omap (λ e, match e with EvUpload _ key _ => Some key | _ => None end) evs.

(** The keys handed to [log_failure] among [evs]. *)
Definition logged_keys (evs : list event) : list string :=
  omap (λ e, match e with EvLogFailure key => Some key | _ => None end) evs.

(** The keys of the delete requests among [evs]. *)
Definition deleted_keys (evs : list event) : list string :=
  omap (λ e, match e with EvDelete key _ => Some key | _ => None end) evs.

(** The keys of the download requests among [evs]. *)
Definition downloaded_keys (evs : list event) : list string :=
  omap (λ e, match e with EvDownload key _ _ => Some key | _ => None end) evs.

Definition is_upload (e : event) : bool :=
  match e with EvUpload _ _ _ => true | _ => false end.

(** A sequence of upload attempts in which a failed attempt is followed
    either by one sleep of [delay] seconds and the next attempt, or by the
    ledger entry that ends the sequence, and a successful attempt by
    nothing. *)
Fixpoint sleeps_between (delay : Z) (evs : list event) : bool :=
  match evs with
  | [] => true
  | EvUpload _ _ true :: rest => match rest with [] => true | _ => false end
  | EvUpload _ _ false :: EvSleep d :: rest =>
      (d =? delay)%Z && from_option is_upload false (head rest)
      && sleeps_between delay rest
  | EvUpload _ _ false :: EvLogFailure _ :: rest =>
      match rest with [] => true | _ => false end
  | _ => false
  end.

(** [k] failed attempts, each followed by a sleep. *)
Definition failed_rounds (path file : string) (delay : Z) (k : nat)
  : list event :=
  concat (replicate k [EvUpload path file false; EvSleep delay]).

(** A computation keeps a relation between the world it starts in and
    the world it leaves, on every exit. *)
Definition preserves {A} (R : relation World) (m : M A) : Prop :=
  ∀ w, R w (m w).2.

(** The scratch directory changed at the paths [paths] only. *)
Definition fs_frame (paths : list string) : relation World :=
  λ w w', ∀ p, p ∉ paths → fs w' !! p = fs w !! p.

(** The source key [{location}/{location_id}/{year}/{filename}]. *)
Definition source_key (location location_id year filename : string) : string :=
  location +:+ "/" +:+ location_id +:+ "/" +:+ year +:+ "/" +:+ filename.

(** A key on which [transform_csv] does something. *)
Definition recognized (file : string) : bool :=
  Str.endswith file "csv.gz" || Str.endswith file ".csv".

(** ** A stand-in for the collaborators

    Small executable versions of gzip and pandas, to run the model on
    concrete inputs: a compressed file is its content after the mark
    [gz:], a table is comma-separated lines under a header line, and the
    reshape only inserts the sensor column. *)
Module Sample.

Definition uuid (n : nat) : string := String (ascii_of_nat (97 + n)) "".

Definition unzip (z : string) : option string :=
  if String.prefix "gz:" z
  then Some (substring 3 (String.length z - 3) z)
  else None.

Definition parse (content : string) : option DataFrame :=
  match file_lines content with
  | [] => None
  | header :: body =>
      Some (mkDataFrame (Str.split header ",")
                        ((λ l, Str.split l ",") <$> body))
  end.

Definition add_sensor (df : DataFrame) (location_id : string)
  : option DataFrame :=
  match columns df with
  | [] => None
  | c :: cs =>
      Some (mkDataFrame (c :: "sensor" :: cs)
              ((λ r, match r with
                     | [] => [location_id]
                     | x :: xs => x :: location_id :: xs
                     end) <$> rows df))
  end.

Fixpoint join_with (sep : string) (l : list string) : string :=
  match l with
  | [] => ""
  | [x] => x
  | x :: l' => x +:+ sep +:+ join_with sep l'
  end.

Definition render (df : DataFrame) : string :=
  join_with (String LF "") (join_with "," <$> (columns df :: rows df))
  +:+ String LF "".

Definition env : Collaborators :=
  {| uuid4 := uuid; gunzip := unzip; read_csv := parse;
     pivot_wide := add_sensor; to_csv := render |}.

(** One day of readings of location 3647, compressed. *)
Definition key : string := "lyon/3647/2022/location-3647-20220101.csv.gz".
Definition readings : string :=
  "gz:datetime,parameter,value" +:+ String LF
  "2022-01-01T00:00,pm25,12.0" +:+ String LF
  "2022-01-01T00:00,no2,5.0" +:+ String LF "".
(** The same file with its header line only. *)
Definition header_only : string :=
  "gz:datetime,parameter,value" +:+ String LF "".

(** A world with the given bucket, ledger and network schedule, an empty
    scratch directory and an empty trace. *)
Definition world (objects : gmap string string) (log : option string)
    (net : list bool) : World :=
  mkWorld objects ∅ log net 0 [].

(** A world whose scratch directory holds one file ready for upload. *)
Definition staged (path content : string) (net : list bool) : World :=
  mkWorld ∅ {[ path := content ]} None net 0 [].

(** What a run left, in a form that prints. *)
Definition outcome {A} (run : result A * World) :=
  (run.1, map_to_list (s3 run.2), map_to_list (fs run.2), ledger run.2,
   trace run.2).

End Sample.

(** ** Work enumeration (lines 126-141) *)

(** The part of a [list_objects_v2] response the script reads: the keys of
    ['Contents'] and the prefixes of ['CommonPrefixes'], each list empty
    when the response has no such entry. *)
Record Listing : Type := mkListing {
  Contents : list string;
  CommonPrefixes : list string
}.

(** What the object store answers to a listing of the bucket for a prefix
    and an optional delimiter.  The order of the keys and the size of a
    page are the store's. *)
Class ObjectListing : Type := {
  list_objects : gmap string string → string → option string → Listing
}.

(** [l[-k]] for [k] at least 1 *)
Definition index_from_end {A} (l : list A) (k : nat) : M A :=
  if decide (k ≤ length l)%nat
  then match l !! (length l - k)%nat with
       | Some x => ret x
       | None => raise IndexError
       end
  else raise IndexError.

(** The text of a ledger with one line per file, as lines 167-169 write
    it. *)
Definition ledger_text (files : list string) : string :=
  foldr (λ file acc, file +:+ String LF "" +:+ acc) "" files.

(** A string without line terminator. *)
Definition newline_free (s : string) : bool :=
  negb (Str.mem LF s) && negb (Str.mem CR s).

Section Enumeration.

Context `{Collaborators} `{ObjectListing}.

(** [s3.list_objects_v2(Bucket=bucket, Prefix=prefix, Delimiter=...)]: a
    read-only request, which leaves no entry in the trace. *)
Definition list_objects_v2 (prefix : string) (delimiter : option string)
  : M Listing :=
  λ w, match s3_request w with
       | (Ok _, w1) => (Ok (list_objects (s3 w1) prefix delimiter), w1)
       | (Raise e, w1) => (Raise e, w1)
       end.

(** Line 130: [[p['Prefix'].split('/')[-2] for p in prefixes]] *)
Fixpoint years_of (prefixes : list string) : M (list string) :=
  match prefixes with
  | [] => ret []
  | p :: rest =>
      index_from_end (Str.split p "/") 2 ≫= λ year : string,
      years_of rest ≫= λ years : list string,
      ret (year :: years)
  end.

(** [get_years(city, location_id)] *)
Definition get_years (city location_id : string) : M (list string) :=
  list_objects_v2 (city +:+ "/" +:+ location_id +:+ "/") (Some "/")
  ≫= λ response : Listing,
  years_of (CommonPrefixes response).

(** Lines 138-141: the loop over the listed objects. *)
Fixpoint process_files (files : list string) (city location_id year : string)
  : M unit :=
  match files with
  | [] => ret ()
  | file :: rest =>
      (if Str.endswith file ".csv.gz"
       then transform_csv file city location_id year
       else ret ()) ;;
      process_files rest city location_id year
  end.

(** [process_year_folder(city, location_id, year)] *)
Definition process_year_folder (city location_id year : string) : M unit :=
  list_objects_v2 (city +:+ "/" +:+ location_id +:+ "/" +:+ year +:+ "/") None
  ≫= λ response : Listing,
  process_files (Contents response) city location_id year.

(** The content [transform_csv] reads as a table: the object itself, or
    what it decompresses to on the compressed branch. *)
Definition decoded (file body : string) : option string :=
  if Str.endswith file "csv.gz" then gunzip body else Some body.

End Enumeration.

(** ** More ways to read a run *)

(** The computation added events that all satisfy [P]. *)
Definition only_events (P : event → Prop) : relation World :=
  λ w w', ∃ evs, trace w' = trace w ++ evs ∧ Forall P evs.

(** The bucket changed at the keys [keys] only. *)
Definition s3_frame (keys : list string) : relation World :=
  λ w w', ∀ k, k ∉ keys → s3 w' !! k = s3 w !! k.

(** The ledger kept its text and gained [more] at its end; a ledger that
    existed still exists. *)
Definition ledger_extends : relation World :=
  λ w w', (∃ more, default "" (ledger w') = default "" (ledger w) +:+ more)
          ∧ (is_Some (ledger w) → is_Some (ledger w')).

(** An event of a call of [transform_csv] that stays within the call's own
    keys: its source for downloads and deletes, its two targets for
    uploads, and one of the three for a ledger entry. *)
Definition own_event (file archive wide : string) (e : event) : Prop :=
  match e with
  | EvDownload key _ _ => key = file
  | EvUpload _ key _ => key = archive ∨ key = wide
  | EvDelete key _ => key = file
  | EvSleep _ => True
  | EvLogFailure key => key = file ∨ key = archive ∨ key = wide
  end.

Definition not_download (e : event) : Prop :=
  match e with EvDownload _ _ _ => False | _ => True end.

(** The network fails the next request. *)
Definition next_fault (w : World) : bool :=
  match faults w with true :: _ => true | _ => false end.

(** A stand-in for the listing: the keys under the prefix in the order of
    the map, and with a delimiter the distinct prefixes up to the next
    slash. *)
Module SampleListing.

Definition keys_under (objects : gmap string string) (prefix : string)
  : list string :=
  filter (λ key, String.prefix prefix key = true) (map_to_list objects).*1.

(** [prefix] and the first component of [key] after it, slash included;
    nothing when no slash follows. *)
Definition common_prefix (prefix key : string) : option string :=
  match Str.split (substring (String.length prefix)
                             (String.length key - String.length prefix) key)
                  "/" with
  | component :: _ :: _ => Some (prefix +:+ component +:+ "/")
  | _ => None
  end.

Definition listing : ObjectListing :=
  {| list_objects objects prefix delimiter :=
       match delimiter with
       | None => mkListing (keys_under objects prefix) []
       | Some _ =>
           mkListing
             (filter (λ key, common_prefix prefix key = None)
                     (keys_under objects prefix))
             (remove_dups
                (omap (common_prefix prefix) (keys_under objects prefix)))
       end |}.

End SampleListing.

(** ** Running computations *)

Lemma bind_run {A B} (m : M A) (k : A → M B) (w : World) :
  (m ≫= k) w = match m w with
               | (Ok a, w1) => k a w1
               | (Raise e, w1) => (Raise e, w1)
               end.
Proof. reflexivity. Qed.

Lemma new_events_app (w w' : World) (evs : list event) :
  trace w' = trace w ++ evs → new_events w w' = evs.
Proof.
  intros Htr. unfold new_events. by rewrite Htr, drop_app_length.
Qed.

(** ** Transfer primitive *)

(** One attempt either stores the object or raises and changes nothing but
    the network schedule and the trace. *)
Lemma upload_file_cases (path key : string) (w : World) :
  (∃ body w1,
      upload_file path key w = (Ok (), w1)
      ∧ fs w !! path = Some body
      ∧ s3 w1 = <[key := body]> (s3 w)
      ∧ trace w1 = trace w ++ [EvUpload path key true]
      ∧ fs w1 = fs w ∧ ledger w1 = ledger w ∧ uuids w1 = uuids w)
  ∨ (∃ e w1,
      upload_file path key w = (Raise e, w1)
      ∧ s3 w1 = s3 w
      ∧ trace w1 = trace w ++ [EvUpload path key false]
      ∧ fs w1 = fs w ∧ ledger w1 = ledger w ∧ uuids w1 = uuids w).
Proof.
  unfold upload_file, s3_request.
  destruct (fs w !! path) as [body|] eqn:Hfile.
  - destruct (faults w) as [|[] rest]; [left|right|left]; eauto 10.
  - right. eauto 10.
Qed.

(** A length in range is slept through. *)
Lemma sleep_ok (secs : Z) (w : World) :
  sleepable secs → sleep secs w = (Ok (), emit (EvSleep secs) w).
Proof.
  intros [Hlo Hhi]. unfold sleep.
  destruct (Z.ltb_spec sleep_max (Z.abs secs)); [lia|].
  destruct (Z.ltb_spec secs 0); [lia|done].
Qed.

Lemma sleepable_default : sleepable 2.
Proof. by compute. Qed.

Lemma sleepable_pause : sleepable 20.
Proof. by compute. Qed.

Lemma failed_rounds_S (path file : string) (delay : Z) (k : nat) :
  failed_rounds path file delay (S k)
  = EvUpload path file false :: EvSleep delay :: failed_rounds path file delay k.
Proof. reflexivity. Qed.

(** What a run of the loop does, from any attempt count: nothing when the
    budget is used up; [k] failed rounds and a successful attempt; or
    failed attempts up to the budget and one ledger entry. *)
Lemma upload_loop_run (n : nat) (path file : string) (retry delay : Z) :
  sleepable delay →
  ∀ (attempt : Z) (w : World),
    (Z.to_nat (retry - attempt) ≤ n)%nat →
    ∃ w', upload_loop n path file retry delay attempt w = (Ok (), w')
      ∧ fs w' = fs w ∧ uuids w' = uuids w
      ∧ ((retry ≤ attempt)%Z ∧ w' = w
         ∨ (∃ k body,
              (attempt + Z.of_nat k < retry)%Z
              ∧ fs w !! path = Some body
              ∧ trace w' = trace w ++ failed_rounds path file delay k
                                   ++ [EvUpload path file true]
              ∧ ledger w' = ledger w
              ∧ s3 w' = <[file := body]> (s3 w))
         ∨ ((attempt < retry)%Z
            ∧ trace w' = trace w
                ++ failed_rounds path file delay
                     (Z.to_nat (retry - attempt) - 1)
                ++ [EvUpload path file false; EvLogFailure file]
            ∧ ledger w' = ledger_append file (ledger w)
            ∧ s3 w' = s3 w)).
Proof.
  intros Hdelay.
  induction n as [|n IH]; intros attempt w Hfuel; simpl.
  { exists w. unfold ret. repeat split; try done. left. split; [lia|done]. }
  destruct (Z.ltb_spec attempt retry) as [Hlt|Hge]; last first.
  { exists w. unfold ret. repeat split; try done. by left. }
  destruct (upload_file_cases path file w)
    as [(body & w1 & -> & Hfile & Hs3 & Htr & Hfs & Hled & Hu)
       |(e & w1 & -> & Hs3 & Htr & Hfs & Hled & Hu)].
  { exists w1. repeat split; try done. right; left. exists 0%nat, body.
    repeat split; try done. lia. }
  destruct (Z.ltb_spec (attempt + 1) retry) as [Hmore|Hlast].
  - rewrite bind_run, (sleep_ok _ _ Hdelay).
    destruct (IH (attempt + 1)%Z (emit (EvSleep delay) w1)) as (w' & -> & Hfs' & Hu' & Hcases);
      [lia|].
    exists w'. cbn in Hfs', Hu'. repeat split; try congruence.
    destruct Hcases as [[Hbad _]|[(k & body & Hk & Hfile & Htr' & Hled' & Hs3')
                                |(_ & Htr' & Hled' & Hs3')]];
      [lia| |].
    + right; left. exists (S k), body. cbn in Hfile, Htr', Hled', Hs3'.
      repeat split; try congruence; [lia|].
      rewrite Htr', Htr, failed_rounds_S, <- !app_assoc. reflexivity.
    + right; right. cbn in Htr', Hled', Hs3'. repeat split; try congruence.
      rewrite Htr', Htr.
      replace (Z.to_nat (retry - attempt) - 1)%nat
        with (S (Z.to_nat (retry - (attempt + 1)) - 1)) by lia.
      rewrite failed_rounds_S, <- !app_assoc. reflexivity.
  - rewrite bind_run. cbn [log_failure].
    destruct (IH (attempt + 1)%Z
                (emit (EvLogFailure file)
                   (set_ledger (ledger_append file (ledger w1)) w1)))
      as (w' & -> & Hfs' & Hu' & Hcases); [lia|].
    exists w'. cbn in Hfs', Hu'. repeat split; try congruence.
    destruct Hcases as [[_ ->]|[(k & body & Hk & _)|(Hbad & _)]]; [|lia|lia].
    right; right. cbn. repeat split; try congruence.
    replace (Z.to_nat (retry - attempt) - 1)%nat with 0%nat by lia.
    rewrite Htr, <- !app_assoc. reflexivity.
Qed.

Lemma upload_outcomes_rounds (path file : string) (delay : Z) (k : nat)
    (rest : list event) :
  upload_outcomes (failed_rounds path file delay k ++ rest)
  = replicate k false ++ upload_outcomes rest.
Proof.
  induction k as [|k IH]; [done|].
  rewrite failed_rounds_S. cbn. by rewrite <- IH.
Qed.

Lemma logged_keys_rounds (path file : string) (delay : Z) (k : nat)
    (rest : list event) :
  logged_keys (failed_rounds path file delay k ++ rest) = logged_keys rest.
Proof.
  induction k as [|k IH]; [done|].
  rewrite failed_rounds_S. cbn. by rewrite <- IH.
Qed.

Lemma sleeps_between_rounds (path file : string) (delay : Z) (k : nat)
    (rest : list event) :
  from_option is_upload false (head rest) = true →
  sleeps_between delay rest = true →
  sleeps_between delay (failed_rounds path file delay k ++ rest) = true.
Proof.
  intros Hhead Hrest. induction k as [|k IH]; [done|].
  rewrite failed_rounds_S. cbn [app sleeps_between].
  rewrite Z.eqb_refl, IH, andb_true_r. cbn [andb].
  destruct k; [done|reflexivity].
Qed.

(** The bound on the iterations is never what stops the loop: any two
    bounds that cover the attempts left give the same run. *)
Lemma upload_loop_fuel (path file : string) (retry delay : Z) (n m : nat) :
  ∀ (attempt : Z) (w : World),
    (Z.to_nat (retry - attempt) ≤ n)%nat →
    (Z.to_nat (retry - attempt) ≤ m)%nat →
    upload_loop n path file retry delay attempt w
    = upload_loop m path file retry delay attempt w.
Proof.
  revert m. induction n as [|n IH]; intros [|m] attempt w Hn Hm; simpl;
    try done.
  - destruct (Z.ltb_spec attempt retry); [lia|done].
  - destruct (Z.ltb_spec attempt retry); [lia|done].
  - destruct (Z.ltb_spec attempt retry); [|done].
    destruct (upload_file path file w) as [[[]|e] w1]; [done|].
    destruct (Z.ltb_spec (attempt + 1) retry); rewrite !bind_run.
    + destruct (sleep delay w1) as [[[]|e'] w2]; [apply IH; lia|done].
    + cbn [log_failure]. apply IH; lia.
Qed.

(** The run of [upload_with_retry], read off [upload_loop_run]. *)
Lemma upload_with_retry_run (path file : string) (retry delay : Z) (w : World) :
  sleepable delay →
  ∃ w' evs,
    upload_with_retry path file retry delay w = (Ok (), w')
    ∧ trace w' = trace w ++ evs
    ∧ fs w' = fs w ∧ uuids w' = uuids w
    ∧ ((retry ≤ 0)%Z ∧ evs = [] ∧ w' = w
       ∨ (∃ k body,
            (Z.of_nat k < retry)%Z
            ∧ fs w !! path = Some body
            ∧ evs = failed_rounds path file delay k ++ [EvUpload path file true]
            ∧ ledger w' = ledger w
            ∧ s3 w' = <[file := body]> (s3 w))
       ∨ ((0 < retry)%Z
          ∧ evs = failed_rounds path file delay (Z.to_nat retry - 1)
                  ++ [EvUpload path file false; EvLogFailure file]
          ∧ ledger w' = ledger_append file (ledger w)
          ∧ s3 w' = s3 w)).
Proof.
  intros Hdelay.
  destruct (upload_loop_run (Z.to_nat retry) path file retry delay Hdelay 0 w)
    as (w' & Hrun & Hfs & Hu & Hcases); [lia|].
  exists w'.
  destruct Hcases as [[Hle ->]|[(k & body & Hk & Hfile & Htr & Hled & Hs3)
                              |(Hlt & Htr & Hled & Hs3)]].
  - exists []. rewrite app_nil_r. repeat split; try done. left. done.
  - eexists. repeat split; try done. right; left. exists k, body.
    repeat split; try done.
  - eexists. repeat split; try done. right; right.
    rewrite Z.sub_0_r in Htr. repeat split; try done.
    by rewrite Z.sub_0_r.
Qed.

(** C2.  A call of [upload_with_retry] with a delay that [time.sleep]
    accepts returns without raising.  When the budget has at least one
    attempt and every attempt of the call fails, the ledger file holds its
    old text (nothing, when it did not exist) followed by the remote key
    and a line feed, and that is the only ledger entry of the call; when
    some attempt succeeds, the ledger is unchanged and nothing is
    logged. *)
Theorem upload_with_retry_ledger (path file : string) (retry delay : Z)
    (w : World) :
  sleepable delay →
  let r := (upload_with_retry path file retry delay w).1 in
  let w' := (upload_with_retry path file retry delay w).2 in
  let evs := new_events w w' in
  r = Ok ()
  ∧ ((0 < retry)%Z → Forall (λ ok, ok = false) (upload_outcomes evs) →
     ledger w' = Some (default "" (ledger w) +:+ file +:+ String LF "")
     ∧ logged_keys evs = [file])
  ∧ (true ∈ upload_outcomes evs →
     ledger w' = ledger w ∧ logged_keys evs = []).
Proof.
  intros Hdelay.
  destruct (upload_with_retry_run path file retry delay w Hdelay)
    as (w' & evs & Hrun & Htr & _ & _ & Hcases).
  rewrite Hrun. cbn [fst snd]. rewrite (new_events_app _ _ _ Htr).
  split; [done|].
  destruct Hcases as [(Hle & -> & ->)|[(k & body & Hk & Hfile & -> & Hled & Hs3)
                                      |(Hlt & -> & Hled & Hs3)]].
  - split; [lia|]. cbn. by intros ?%elem_of_nil.
  - rewrite upload_outcomes_rounds, logged_keys_rounds. cbn. split.
    + intros _ Hall. apply Forall_app in Hall as [_ Hall].
      by apply Forall_cons in Hall as [? _].
    + done.
  - rewrite upload_outcomes_rounds, logged_keys_rounds. cbn. split; [done|].
    intros Hin. apply elem_of_app in Hin as [Hin|Hin].
    + by apply elem_of_replicate in Hin as [? _].
    + by apply list_elem_of_singleton in Hin.
Qed.

(** C5.  A call of [upload_with_retry] with a delay that [time.sleep]
    accepts makes at most [retry] upload attempts; every failed attempt is
    followed by one sleep of [delay] seconds and the next attempt, except
    the last one of an exhausted budget, which is followed by the ledger
    entry; and with the default budget of 5, a call whose attempts 1 to 4
    fail and whose attempt 5 succeeds logs nothing and leaves the ledger
    as it was. *)
Theorem upload_with_retry_attempts (path file : string) (retry delay : Z)
    (w : World) :
  sleepable delay →
  let w' := (upload_with_retry path file retry delay w).2 in
  let evs := new_events w w' in
  trace w' = trace w ++ evs
  ∧ (length (upload_outcomes evs) ≤ Z.to_nat retry)%nat
  ∧ sleeps_between delay evs = true
  ∧ (retry = 5%Z →
     upload_outcomes evs = [false; false; false; false; true] →
     logged_keys evs = [] ∧ ledger w' = ledger w).
Proof.
  intros Hdelay.
  destruct (upload_with_retry_run path file retry delay w Hdelay)
    as (w' & evs & Hrun & Htr & _ & _ & Hcases).
  rewrite Hrun. cbn [fst snd]. rewrite (new_events_app _ _ _ Htr).
  split; [done|].
  destruct Hcases as [(Hle & -> & ->)|[(k & body & Hk & Hfile & -> & Hled & Hs3)
                                      |(Hlt & -> & Hled & Hs3)]].
  - cbn. split; [lia|]. split; [done|]. intros _ Hout. discriminate Hout.
  - rewrite upload_outcomes_rounds, logged_keys_rounds, length_app,
      length_replicate. cbn. split; [lia|]. split; [|done].
    by apply sleeps_between_rounds.
  - rewrite upload_outcomes_rounds, logged_keys_rounds, length_app,
      length_replicate. cbn. split; [lia|]. split.
    + by apply sleeps_between_rounds.
    + intros -> Hout. vm_compute in Hout. discriminate Hout.
Qed.

(** ** Relations kept along a computation *)

Section Preserves.
Context (R : relation World) `{!PreOrder R}.

Lemma preserves_ret {A} (a : A) : preserves R (ret a).
Proof. intros w. reflexivity. Qed.

Lemma preserves_raise {A} (e : exn) : preserves R (@raise A e).
Proof. intros w. reflexivity. Qed.

Lemma preserves_bind {A B} (m : M A) (k : A → M B) :
  preserves R m → (∀ a, preserves R (k a)) → preserves R (m ≫= k).
Proof.
  intros Hm Hk w. rewrite bind_run. specialize (Hm w).
  destruct (m w) as [[a|e] w1]; cbn in *; [|done].
  etrans; [exact Hm|apply Hk].
Qed.

Lemma preserves_if {A} (b : bool) (m1 m2 : M A) :
  preserves R m1 → preserves R m2 → preserves R (if b then m1 else m2).
Proof. by destruct b. Qed.
End Preserves.

#[global] Instance fs_frame_preorder (paths : list string) :
  PreOrder (fs_frame paths).
Proof.
  split.
  - by intros w p _.
  - intros w1 w2 w3 H12 H23 p Hp. by rewrite H23, H12.
Qed.

Lemma preserves_fs_same {A} (paths : list string) (m : M A) :
  (∀ w, fs (m w).2 = fs w) → preserves (fs_frame paths) m.
Proof. intros Hm w p _. by rewrite Hm. Qed.

Lemma s3_request_fs (w : World) : fs (s3_request w).2 = fs w.
Proof. unfold s3_request. by destruct (faults w) as [|[] ?]. Qed.

Lemma s3_request_cases (w : World) :
  ∃ r rest, s3_request w = (r, set_faults rest w).
Proof.
  unfold s3_request. destruct w as [o f l [|[] rest] u t]; cbn; eauto.
Qed.

Lemma download_file_frame (paths : list string) (key path : string) :
  path ∈ paths → preserves (fs_frame paths) (download_file key path).
Proof.
  intros Hin w p Hp. unfold download_file.
  destruct (s3_request_cases w) as (r & rest & ->).
  destruct r as [[]|e]; [|done]. cbn.
  destruct (s3 w !! key); [|done]. cbn.
  apply lookup_insert_ne. by intros ->.
Qed.

Lemma delete_object_frame (paths : list string) (key : string) :
  preserves (fs_frame paths) (delete_object key).
Proof.
  apply preserves_fs_same. intros w. unfold delete_object.
  destruct (s3_request_cases w) as (r & rest & ->). by destruct r as [[]|e].
Qed.

(** Whatever [time.sleep] does with the delay, it leaves the worlds'
    stores alone and adds at most its own event. *)
Lemma sleep_cases (secs : Z) (w : World) :
  sleep secs w = (Ok (), emit (EvSleep secs) w)
  ∨ ∃ e, sleep secs w = (Raise e, w).
Proof.
  unfold sleep. destruct (sleep_max <? Z.abs secs)%Z; [eauto|].
  destruct (secs <? 0)%Z; eauto.
Qed.

Lemma upload_loop_fs (n : nat) (path file : string) (retry delay : Z) :
  ∀ (attempt : Z) (w : World),
    fs (upload_loop n path file retry delay attempt w).2 = fs w.
Proof.
  induction n as [|n IH]; intros attempt w; simpl; [done|].
  destruct (attempt <? retry)%Z; [|done].
  destruct (upload_file_cases path file w)
    as [(body & w1 & -> & _ & _ & _ & Hfs & _)
       |(e & w1 & -> & _ & _ & Hfs & _)]; [done|].
  destruct (attempt + 1 <? retry)%Z; rewrite bind_run.
  - destruct (sleep_cases delay w1) as [->|[e' ->]]; [|done].
    by rewrite IH.
  - cbn [log_failure]. by rewrite IH.
Qed.

Lemma upload_with_retry_frame (paths : list string) (path file : string)
    (retry delay : Z) :
  preserves (fs_frame paths) (upload_with_retry path file retry delay).
Proof. apply preserves_fs_same. intros w. apply upload_loop_fs. Qed.

Create HintDb frame.

#[global] Hint Resolve preserves_ret preserves_raise preserves_bind
  preserves_if download_file_frame delete_object_frame
  upload_with_retry_frame : frame.

Section TransformUnit.
Context `{Collaborators}.

Lemma gunzip_file_frame (paths : list string) (gz_path csv_path : string) :
  csv_path ∈ paths →
  preserves (fs_frame paths) (gunzip_file gz_path csv_path).
Proof.
  intros Hin w p Hp. unfold gunzip_file.
  destruct (fs w !! gz_path) as [z|]; [|done].
  destruct (gunzip z); cbn; apply lookup_insert_ne; by intros ->.
Qed.

Lemma pd_read_csv_frame (paths : list string) (csv_path : string) :
  preserves (fs_frame paths) (pd_read_csv csv_path).
Proof.
  apply preserves_fs_same. intros w. unfold pd_read_csv.
  destruct (fs w !! csv_path) as [c|]; [|done]. by destruct (read_csv c).
Qed.

Lemma write_wide_frame (paths : list string) (df : DataFrame)
    (location_id wide_path : string) :
  wide_path ∈ paths →
  preserves (fs_frame paths) (write_wide df location_id wide_path).
Proof.
  intros Hin w p Hp. unfold write_wide.
  destruct (pivot_wide df location_id); [|done].
  cbn. apply lookup_insert_ne. by intros ->.
Qed.

Lemma archive_and_widen_frame (paths : list string)
    (file csv_path wide_path archive wide location_id : string) :
  wide_path ∈ paths →
  preserves (fs_frame paths)
    (archive_and_widen file csv_path wide_path archive wide location_id).
Proof.
  intros Hin. unfold archive_and_widen.
  apply preserves_bind; [apply _|apply pd_read_csv_frame|intros df].
  repeat (apply preserves_bind; [apply _| |intros ?]);
    auto using write_wide_frame with frame.
  apply preserves_if; [apply preserves_raise; apply _|].
  apply upload_with_retry_frame.
Qed.

(** The [try] block writes at its scratch paths only. *)
Lemma try_block_frame (file city location_id year : string) (n : nat) :
  preserves (fs_frame (scratch_files file n))
    (try_block file city location_id year n).
Proof.
  unfold try_block, scratch_files, gz_body, csv_body.
  destruct (Str.endswith file "csv.gz").
  - apply preserves_bind; [apply _| |intros _].
    { apply download_file_frame. set_solver. }
    apply preserves_bind; [apply _| |intros _].
    { apply gunzip_file_frame. set_solver. }
    apply archive_and_widen_frame. set_solver.
  - apply preserves_bind; [apply _| |intros _].
    { apply download_file_frame. set_solver. }
    apply archive_and_widen_frame. set_solver.
Qed.

Lemma remove_if_exists_run (path : string) (w : World) :
  remove_if_exists path w = (Ok (), set_fs (delete path (fs w)) w).
Proof.
  unfold remove_if_exists. destruct (fs w !! path) eqn:Hp; [done|].
  rewrite delete_id by done. by destruct w.
Qed.

(** A call on a recognized key is its [try] block, the ledger entry when
    the block raised, and the removal of the scratch files: it returns
    normally whatever the block did. *)
Lemma transform_csv_run (file city location_id year : string) (w : World)
    (r : result unit) (w1 : World) :
  recognized file = true →
  try_block file city location_id year (uuids w) (after_draws w) = (r, w1) →
  transform_csv file city location_id year w
  = let w2 := match r with
              | Ok _ => w1
              | Raise _ =>
                  emit (EvLogFailure file)
                       (set_ledger (ledger_append file (ledger w1)) w1)
              end in
    (Ok (), set_fs (foldl (λ m p, delete p m) (fs w2)
                          (scratch_files file (uuids w))) w2).
Proof.
  unfold recognized, try_block, transform_csv, scratch_files.
  intros Hrec Hblock.
  rewrite !bind_run. cbn [fresh_uuid].
  rewrite !bind_run. cbn [fresh_uuid uuids set_uuids].
  rewrite !bind_run. cbn [fresh_uuid uuids set_uuids].
  change (set_uuids _ (set_uuids _ (set_uuids _ w))) with (after_draws w).
  unfold gz_path_at, csv_path_at, wide_path_at in Hblock.
  destruct (Str.endswith file "csv.gz") eqn:Hgz.
  - unfold try_finally, try_except. rewrite Hblock.
    destruct r as [[]|e]; cbn [log_failure];
      repeat (rewrite ?bind_run, remove_if_exists_run; cbn beta iota);
      reflexivity.
  - cbn in Hrec. rewrite Hrec.
    unfold try_finally, try_except. rewrite Hblock.
    destruct r as [[]|e]; cbn [log_failure];
      repeat (rewrite ?bind_run, remove_if_exists_run; cbn beta iota);
      reflexivity.
Qed.

Lemma lookup_foldl_delete (paths : list string) (m : gmap string string)
    (p : string) :
  foldl (λ m p, delete p m) m paths !! p
  = if decide (p ∈ paths) then None else m !! p.
Proof.
  revert m. induction paths as [|q paths IH]; intros m; cbn.
  { by rewrite decide_False by apply not_elem_of_nil. }
  rewrite IH. destruct (decide (p ∈ paths)) as [Hin|Hout].
  - rewrite decide_True by (by right). done.
  - destruct (decide (p = q)) as [->|Hne].
    + rewrite decide_True by left. apply lookup_delete_eq.
    + rewrite decide_False by (by intros [?|?]%elem_of_cons).
      by apply lookup_delete_ne.
Qed.


(** C8.  A call of [transform_csv] on a recognized key returns normally
    with a scratch directory that is the one it found minus the scratch
    paths of the call: whatever the call created there is removed, on the
    successful exit and on the failing one. *)
Theorem transform_csv_cleans_scratch (file city location_id year : string)
    (w : World) :
  recognized file = true →
  ∃ w', transform_csv file city location_id year w = (Ok (), w')
    ∧ fs w' = foldl (λ m p, delete p m) (fs w) (scratch_files file (uuids w))
    ∧ fs w' ⊆ fs w
    ∧ ∀ p, p ∈ scratch_files file (uuids w) → fs w' !! p = None.
Proof.
  intros Hrec.
  destruct (try_block file city location_id year (uuids w) (after_draws w))
    as [r w1] eqn:Hblock.
  rewrite (transform_csv_run _ _ _ _ _ _ _ Hrec Hblock).
  eexists. split; [reflexivity|]. cbn [fs set_fs].
  pose proof (try_block_frame file city location_id year (uuids w)
                (after_draws w)) as Hframe.
  rewrite Hblock in Hframe. cbn [snd] in Hframe.
  assert (Hlook : ∀ p,
    foldl (λ m p, delete p m)
      (fs match r with
          | Ok _ => w1
          | Raise _ =>
              emit (EvLogFailure file)
                (set_ledger (ledger_append file (ledger w1)) w1)
          end) (scratch_files file (uuids w)) !! p
    = if decide (p ∈ scratch_files file (uuids w)) then None else fs w !! p).
  { intros p. rewrite lookup_foldl_delete. case_decide; [done|].
    destruct r; cbn; by rewrite Hframe. }
  split; [|split].
  - apply map_eq. intros p. by rewrite Hlook, lookup_foldl_delete.
  - apply map_subseteq_spec. intros p x. rewrite Hlook.
    by case_decide.
  - intros p Hp. rewrite Hlook. by rewrite decide_True.
Qed.

(** On any other key the call draws its three paths and stops. *)
Lemma transform_csv_other_keys_run (file city location_id year : string)
    (w : World) :
  recognized file = false →
  transform_csv file city location_id year w = (Ok (), after_draws w).
Proof.
  intros [Hgz Hcsv]%orb_false_iff. unfold transform_csv.
  rewrite !bind_run. cbn [fresh_uuid].
  rewrite !bind_run. cbn [fresh_uuid uuids set_uuids].
  rewrite !bind_run. cbn [fresh_uuid uuids set_uuids].
  by rewrite Hgz, Hcsv.
Qed.

(** The transform unit never raises, whatever the key. *)
Lemma transform_csv_returns (file city location_id year : string)
    (w : World) :
  ∃ w', transform_csv file city location_id year w = (Ok (), w').
Proof.
  destruct (recognized file) eqn:Hrec.
  - destruct (try_block file city location_id year (uuids w) (after_draws w))
      as [r w1] eqn:Hblock.
    rewrite (transform_csv_run _ _ _ _ _ _ _ Hrec Hblock). eauto.
  - rewrite transform_csv_other_keys_run by done. eauto.
Qed.

(** C10.  On a key that ends neither in [csv.gz] nor in [.csv],
    [transform_csv] returns normally and leaves the bucket, the scratch
    directory, the ledger, the trace and the network schedule as they
    were: no request is sent, no file created, nothing logged. *)
Theorem transform_csv_ignores_other_keys (file city location_id year : string)
    (w : World) :
  Str.endswith file "csv.gz" = false →
  Str.endswith file ".csv" = false →
  ∃ w', transform_csv file city location_id year w = (Ok (), w')
    ∧ s3 w' = s3 w ∧ fs w' = fs w ∧ ledger w' = ledger w
    ∧ trace w' = trace w ∧ faults w' = faults w.
Proof.
  intros Hgz Hcsv. exists (after_draws w).
  rewrite transform_csv_other_keys_run; [done|].
  unfold recognized. by rewrite Hgz, Hcsv.
Qed.

Lemma df_empty_no_rows (df : DataFrame) : rows df = [] → df_empty df = true.
Proof. unfold df_empty. intros ->. by destruct (columns df). Qed.

(** A download either fetches the object into [path] or raises and
    leaves the bucket, the files and the ledger alone. *)
Lemma download_file_cases (key path : string) (w : World) :
  (∃ body w1,
      download_file key path w = (Ok (), w1)
      ∧ s3 w !! key = Some body
      ∧ fs w1 = <[path := body]> (fs w))
  ∨ (∃ e w1, download_file key path w = (Raise e, w1) ∧ fs w1 = fs w).
Proof.
  unfold download_file. destruct (s3_request_cases w) as (r & rest & ->).
  destruct r as [[]|e]; cbn; [|right; eauto].
  destruct (s3 w !! key) as [body|]; [left|right]; eauto.
Qed.

Lemma download_file_effect (key path : string) (w : World) :
  ∃ ok, s3 (download_file key path w).2 = s3 w
    ∧ ledger (download_file key path w).2 = ledger w
    ∧ trace (download_file key path w).2
      = trace w ++ [EvDownload key path ok].
Proof.
  unfold download_file. destruct (s3_request_cases w) as (r & rest & ->).
  destruct r as [[]|e]; cbn; [|eauto].
  destruct (s3 w !! key) as [body|]; cbn; eauto.
Qed.

(** Once the file is in [csv_path], a table without data rows stops at
    the validation: nothing is uploaded or deleted. *)
Lemma archive_and_widen_empty
    (file csv_path wide_path archive wide location_id content : string)
    (w : World) :
  fs w !! csv_path = Some content →
  (∀ df, read_csv content = Some df → rows df = []) →
  ∃ e, archive_and_widen file csv_path wide_path archive wide location_id w
       = (Raise e, w).
Proof.
  intros Hfile Hempty. unfold archive_and_widen.
  rewrite bind_run. unfold pd_read_csv. rewrite Hfile.
  destruct (read_csv content) as [df|] eqn:Hread; [|eauto].
  rewrite bind_run, (df_empty_no_rows df) by auto. eauto.
Qed.

(** The [try] block on a stored file without data rows: one download
    attempt, then an exception. *)
Lemma try_block_empty_input (file city location_id year body : string)
    (n : nat) (w : World) :
  s3 w !! file = Some body →
  (∀ df, tabular_content file body = Some df → rows df = []) →
  ∃ e w1 path ok,
    try_block file city location_id year n w = (Raise e, w1)
    ∧ s3 w1 = s3 w ∧ ledger w1 = ledger w
    ∧ trace w1 = trace w ++ [EvDownload file path ok].
Proof.
  intros Hobj Hempty. unfold try_block, tabular_content in *.
  destruct (Str.endswith file "csv.gz").
  - unfold gz_body. rewrite bind_run.
    destruct (download_file_effect file (gz_path_at n) w)
      as (ok & Hs3 & Hled & Htr).
    destruct (download_file_cases file (gz_path_at n) w)
      as [(body' & w1 & Hrun & Hobj' & Hfs)|(e & w1 & Hrun & _)];
      rewrite Hrun in *; cbn [snd] in *; [|by eauto 10].
    assert (body' = body) as -> by congruence.
    rewrite bind_run. unfold gunzip_file.
    rewrite Hfs, lookup_insert_eq.
    destruct (gunzip body) as [data|] eqn:Hunzip; [|by eauto 10].
    edestruct (archive_and_widen_empty file (csv_path_at n) (wide_path_at n))
      as [e ->]; [| |by eauto 10].
    + cbn [fs set_fs]. apply lookup_insert_eq.
    + intros df Hread. apply Hempty. exact Hread.
  - unfold csv_body. rewrite bind_run.
    destruct (download_file_effect file (csv_path_at n) w)
      as (ok & Hs3 & Hled & Htr).
    destruct (download_file_cases file (csv_path_at n) w)
      as [(body' & w1 & Hrun & Hobj' & Hfs)|(e & w1 & Hrun & _)];
      rewrite Hrun in *; cbn [snd] in *; [|by eauto 10].
    assert (body' = body) as -> by congruence.
    edestruct (archive_and_widen_empty file (csv_path_at n) (wide_path_at n))
      as [e ->]; [| |by eauto 10].
    + rewrite Hfs. apply lookup_insert_eq.
    + done.
Qed.

(** C4.  On a recognized key whose stored object decodes to no table with
    a data row, [transform_csv] returns normally having attempted no
    upload and no delete; its only ledger entry is the key, and the ledger
    file holds the text it had before the call (nothing, when it did not
    exist) followed by the key and a line feed; and the bucket is
    untouched, so the source object is still there. *)
Theorem transform_csv_empty_input (file city location_id year body : string)
    (w : World) :
  recognized file = true →
  s3 w !! file = Some body →
  (∀ df, tabular_content file body = Some df → rows df = []) →
  ∃ w', transform_csv file city location_id year w = (Ok (), w')
    ∧ upload_targets (new_events w w') = []
    ∧ deleted_keys (new_events w w') = []
    ∧ logged_keys (new_events w w') = [file]
    ∧ ledger w' = Some (default "" (ledger w) +:+ file +:+ String LF "")
    ∧ s3 w' = s3 w
    ∧ s3 w' !! file = Some body.
Proof.
  intros Hrec Hobj Hempty.
  destruct (try_block_empty_input file city location_id year body
              (uuids w) (after_draws w) Hobj Hempty)
    as (e & w1 & path & ok & Hblock & Hs3 & Hled & Htr).
  rewrite (transform_csv_run _ _ _ _ _ _ _ Hrec Hblock).
  eexists. split; [reflexivity|]. cbn in Hs3, Hled, Htr.
  rewrite (new_events_app w _ [EvDownload file path ok; EvLogFailure file]).
  - cbn. rewrite Hs3, Hled. done.
  - cbn. rewrite Htr, <- app_assoc. done.
Qed.
End TransformUnit.

(** ** Strings *)

Lemma append_nil (b : string) : "" +:+ b = b.
Proof. reflexivity. Qed.

Lemma append_cons (c : ascii) (a b : string) :
  String c a +:+ b = String c (a +:+ b).
Proof. reflexivity. Qed.

Lemma append_assoc (a b c : string) : (a +:+ b) +:+ c = a +:+ b +:+ c.
Proof.
  induction a as [|x a IH]; [done|]. rewrite !append_cons. by f_equal.
Qed.

Lemma append_empty_r (a : string) : a +:+ "" = a.
Proof.
  induction a as [|x a IH]; [done|]. rewrite append_cons. by f_equal.
Qed.

Lemma split_nonempty (s : string) (sep : ascii) : Str.split s sep ≠ [].
Proof.
  destruct s as [|c s]; cbn; [done|].
  destruct (Ascii.eqb c sep); [done|]. by destruct (Str.split s sep).
Qed.

Lemma split_sep (s : string) (sep : ascii) :
  Str.split (String sep s) sep = "" :: Str.split s sep.
Proof. cbn. by rewrite Ascii.eqb_refl. Qed.

(** A prefix without the separator stays in the first component. *)
Lemma split_app (a b : string) (sep : ascii) (h : string) (t : list string) :
  Str.mem sep a = false →
  Str.split b sep = h :: t →
  Str.split (a +:+ b) sep = (a +:+ h) :: t.
Proof.
  intros Ha Hb. induction a as [|c a IH]; [done|].
  cbn in Ha. apply orb_false_iff in Ha as [Hc Ha].
  rewrite !append_cons. cbn [Str.split]. rewrite Hc, IH by done. done.
Qed.

Lemma mem_app (c : ascii) (a b : string) :
  Str.mem c (a +:+ b) = Str.mem c a || Str.mem c b.
Proof.
  induction a as [|x a IH]; [done|].
  rewrite append_cons. cbn. by rewrite IH, orb_assoc.
Qed.

Lemma substring_app_l (a b : string) :
  substring 0 (String.length a) (a +:+ b) = a.
Proof.
  induction a as [|c a IH].
  - by destruct b.
  - rewrite append_cons. cbn. by rewrite IH.
Qed.



Lemma length_append (a b : string) :
  String.length (a +:+ b) = (String.length a + String.length b)%nat.
Proof.
  induction a as [|c a IH]; [done|]. rewrite append_cons. cbn. by rewrite IH.
Qed.

Lemma prefix_app (a b : string) : String.prefix a (a +:+ b) = true.
Proof.
  induction a as [|c a IH]; [by destruct b|]. rewrite append_cons. cbn.
  by destruct (ascii_dec c c).
Qed.

Lemma prefix_refl (a : string) : String.prefix a a = true.
Proof. rewrite <- (append_empty_r a) at 2. apply prefix_app. Qed.

Lemma prefix_inv (a s : string) :
  String.prefix a s = true → ∃ b, s = a +:+ b.
Proof.
  revert s. induction a as [|c a IH]; intros s Hpre.
  { by exists s. }
  destruct s as [|c' s]; [done|]. cbn in Hpre.
  destruct (ascii_dec c c') as [<-|]; [|done].
  destruct (IH s Hpre) as [b ->]. by exists b.
Qed.

Lemma substring_all (s : string) : substring 0 (String.length s) s = s.
Proof. induction s as [|c s IH]; cbn; [done|by rewrite IH]. Qed.

Lemma substring_app_r (a b : string) :
  substring (String.length a) (String.length b) (a +:+ b) = b.
Proof.
  induction a as [|c a IH]; [apply substring_all|].
  rewrite append_cons. cbn. exact IH.
Qed.

Lemma endswith_app (a b : string) : Str.endswith (a +:+ b) b = true.
Proof.
  unfold Str.endswith. rewrite length_append.
  replace (String.length a + String.length b - String.length b)%nat
    with (String.length a) by lia.
  rewrite substring_app_r, String.eqb_refl, andb_true_r.
  apply Nat.leb_le. lia.
Qed.

(** The characters of a matched occurrence are dropped. *)
Lemma replace_from_skip (old new a b : string) :
  Str.replace_from old new (String.length a) (a +:+ b)
  = Str.replace_from old new 0 b.
Proof.
  induction a as [|c a IH]; [done|]. rewrite append_cons. cbn. exact IH.
Qed.

Lemma replace_from_skip_all (old new a : string) :
  Str.replace_from old new (String.length a) a = "".
Proof.
  rewrite <- (append_empty_r a) at 2. by rewrite replace_from_skip.
Qed.

(** When [old] occurs in [stem +:+ old] at the end only, [replace] swaps
    that suffix and nothing else. *)
Lemma replace_final_suffix (stem old new : string) :
  old ≠ "" →
  (∀ a b, stem +:+ old = a +:+ old +:+ b → b = "") →
  Str.replace (stem +:+ old) old new = stem +:+ new.
Proof.
  intros Hold. unfold Str.replace.
  induction stem as [|c stem IH]; intros Honce.
  - rewrite append_nil. destruct old as [|c old]; [done|].
    cbn [Str.replace_from]. rewrite prefix_refl.
    replace (String.length (String c old) - 1)%nat
      with (String.length old) by (cbn; lia).
    by rewrite replace_from_skip_all, append_empty_r.
  - rewrite !append_cons. cbn [Str.replace_from].
    destruct (String.prefix old (String c (stem +:+ old))) eqn:Hpre.
    + apply prefix_inv in Hpre as [b Hb].
      assert (b = "") as ->.
      { apply (Honce "" b). by rewrite append_cons, append_nil. }
      apply (f_equal String.length) in Hb.
      rewrite append_empty_r in Hb. cbn in Hb. rewrite length_append in Hb.
      lia.
    + f_equal. apply IH. intros a b Hab.
      apply (Honce (String c a) b). by rewrite !append_cons, Hab.
Qed.

Lemma basename_from_plain (cur p : string) :
  Str.mem "/" p = false → OsPath.basename_from cur p = cur.
Proof.
  induction p as [|c p IH]; [done|]. cbn.
  intros [-> Hp]%orb_false_iff. by apply IH.
Qed.

Lemma basename_from_app (cur dir name : string) :
  Str.mem "/" name = false →
  OsPath.basename_from cur (dir +:+ "/" +:+ name) = name.
Proof.
  intros Hname. revert cur. induction dir as [|c dir IH]; intros cur.
  - rewrite append_nil, append_cons, append_nil. cbn.
    by apply basename_from_plain.
  - rewrite append_cons. cbn. destruct (Ascii.eqb c "/"); apply IH.
Qed.

Lemma basename_source_key (location location_id year filename : string) :
  Str.mem "/" filename = false →
  OsPath.basename (source_key location location_id year filename) = filename.
Proof.
  intros Hname. unfold OsPath.basename.
  assert (Hkey : source_key location location_id year filename
                 = (location +:+ "/" +:+ location_id +:+ "/" +:+ year)
                   +:+ "/" +:+ filename).
  { unfold source_key. by rewrite !append_assoc. }
  rewrite Hkey at 2. by apply basename_from_app.
Qed.

Lemma join_dir (dir name : string) :
  String.prefix "/" name = false →
  OsPath.join (dir +:+ "/") name = dir +:+ "/" +:+ name.
Proof.
  intros Hname. unfold OsPath.join.
  by rewrite Hname, endswith_app, orb_true_r, append_assoc.
Qed.

Lemma prefix_slash_plain (stem ext : string) :
  Str.mem "/" stem = false →
  String.prefix "/" ext = false →
  String.prefix "/" (stem +:+ ext) = false.
Proof.
  intros Hstem Hext. destruct stem as [|c stem]; [exact Hext|].
  rewrite append_cons. cbn [String.prefix]. cbn in Hstem.
  apply orb_false_iff in Hstem as [Hc _].
  destruct (ascii_dec "/" c) as [<-|]; [done|done].
Qed.

Lemma without_compression_suffix_gz (name : string) :
  without_compression_suffix (name +:+ ".gz") = name.
Proof.
  unfold without_compression_suffix.
  rewrite endswith_app, length_append.
  replace (String.length name + String.length ".gz" - 3)%nat
    with (String.length name) by (cbn; lia).
  apply substring_app_l.
Qed.

(** ** Key naming on regular file names *)

Section KeyNaming.
Variables location location_id year stem : string.
Hypothesis stem_plain : Str.mem "/" stem = false.
Hypothesis suffix_once :
  ∀ a b, stem +:+ ".csv.gz" = a +:+ ".csv.gz" +:+ b → b = "".

Lemma file_name_csv_regular :
  file_name_csv (source_key location location_id year (stem +:+ ".csv.gz"))
  = stem +:+ ".csv".
Proof.
  unfold file_name_csv.
  rewrite basename_source_key by (by rewrite mem_app, stem_plain).
  by apply replace_final_suffix.
Qed.

(** X17.  On a file name [{stem}.csv.gz] in which [.csv.gz] occurs at the
    end only, the two uploads go where the naming convention says. *)
Lemma targets_regular :
  let file :=
    source_key location location_id year (stem +:+ ".csv.gz") in
  archive_file file location location_id year
  = archive_target location location_id year (stem +:+ ".csv.gz")
  ∧ wide_file file location location_id year
    = wide_target location location_id year (stem +:+ ".csv.gz").
Proof.
  intros file.
  unfold archive_file, wide_file, archive_prefix, wide_prefix,
    archive_target, wide_target, file.
  rewrite file_name_csv_regular.
  replace (stem +:+ ".csv.gz") with ((stem +:+ ".csv") +:+ ".gz")
    by (by rewrite append_assoc).
  rewrite without_compression_suffix_gz.
  assert (Hname : String.prefix "/" (stem +:+ ".csv") = false)
    by (by apply prefix_slash_plain).
  split.
  - replace (location +:+ "/archive/" +:+ location_id +:+ "/" +:+ year
             +:+ "/")
      with ((location +:+ "/archive/" +:+ location_id +:+ "/" +:+ year)
            +:+ "/") by (by rewrite !append_assoc).
    by rewrite join_dir, !append_assoc.
  - replace (location +:+ "/wide/" +:+ location_id +:+ "/" +:+ year
             +:+ "/")
      with ((location +:+ "/wide/" +:+ location_id +:+ "/" +:+ year)
            +:+ "/") by (by rewrite !append_assoc).
    by rewrite join_dir, !append_assoc.
Qed.
End KeyNaming.

(** ** Retry driver *)

Section RetryDriver.
Context `{Collaborators}.

(** Hence the first of the outer attempts always counts as a success. *)
Lemma attempts_first (n : nat) (file city location_id year : string)
    (w : World) :
  ∃ w', transform_csv file city location_id year w = (Ok (), w')
    ∧ attempts (S n) (transform_csv file city location_id year) w
      = (Ok true, w').
Proof.
  destruct (transform_csv_returns file city location_id year w) as [w' Hrun].
  exists w'. split; [done|]. cbn [attempts]. by rewrite Hrun.
Qed.

Lemma retry_each_keeps_nothing (failed_files_list : list string) :
  ∀ w, Forall (λ line : string, (3 ≤ length (Str.split line "-"))%nat) failed_files_list →
       ∃ w', retry_each failed_files_list [] w = (Ok [], w').
Proof.
  induction failed_files_list as [|failed_file rest IH]; intros w Hlines.
  { by exists w. }
  apply Forall_cons in Hlines as [Hline Hrest].
  cbn [retry_each]. rewrite bind_run.
  unfold retry_one. rewrite bind_run. unfold parse_failed_file.
  destruct (Str.split failed_file "-") as [|f0 [|f1 [|f2 fields]]];
    cbn in Hline; try lia.
  cbn -[attempts Str.slice_to]. unfold mbind, M_bind, bind, ret.
  destruct (attempts_first 4 (Str.strip failed_file) "lyon" f1
              (Str.slice_to 4 f2) w) as (w1 & _ & ->).
  apply IH, Hrest.
Qed.

(** Whatever becomes of the files, a retry pass over a ledger whose lines
    have their three dash-separated fields ends with an empty ledger. *)
Lemma retry_failed_files_empties_ledger (content : string) (w : World) :
  ledger w = Some content →
  Forall (λ line : string, (3 ≤ length (Str.split line "-"))%nat)
         (Str.strip <$> file_lines content) →
  ∃ w', retry_failed_files w = (Ok (), w') ∧ ledger w' = Some "".
Proof.
  intros Hledger Hlines. unfold retry_failed_files.
  rewrite bind_run. unfold read_log_failure. rewrite Hledger.
  rewrite bind_run.
  destruct (retry_each_keeps_nothing _ w Hlines) as [w1 ->].
  eexists. split; reflexivity.
Qed.

(** C7.  When the ledger file does not exist, probing it raises
    [FileNotFoundError] inside the loop of [main], which takes it as the
    end of the work: the loop returns normally and the world is the one
    it found, so no retry pass has run. *)
Theorem main_retry_absent_ledger (w : World) :
  ledger w = None →
  getsize_ledger w = (Raise FileNotFoundError, w)
  ∧ main_retry w = (Ok (), w).
Proof.
  intros Hledger. unfold main_retry, getsize_ledger. cbn [retry_passes].
  unfold retry_pass. rewrite bind_run. unfold getsize_ledger.
  by rewrite Hledger.
Qed.
End RetryDriver.

(** ** The properties on sample runs *)

(** A happy run: the day of readings is archived, reshaped and uploaded,
    the source object deleted twice, the scratch directory left empty. *)
Example transform_csv_sample_run :
  Sample.outcome
    (transform_csv (H := Sample.env) Sample.key "lyon" "3647" "2022"
       (Sample.world {[ Sample.key := Sample.readings ]} None []))
  = (Ok (),
     [("lyon/wide/3647/2022/location-3647-20220101.csv",
       "datetime,sensor,parameter,value" +:+ String LF
       "2022-01-01T00:00,3647,pm25,12.0" +:+ String LF
       "2022-01-01T00:00,3647,no2,5.0" +:+ String LF "");
      ("lyon/archive/3647/2022/location-3647-20220101.csv",
       "datetime,parameter,value" +:+ String LF
       "2022-01-01T00:00,pm25,12.0" +:+ String LF
       "2022-01-01T00:00,no2,5.0" +:+ String LF "")],
     [], None,
     [EvDownload Sample.key "/tmp/temp_a.gz" true;
      EvUpload "/tmp/temp_b.csv"
        "lyon/archive/3647/2022/location-3647-20220101.csv" true;
      EvDelete Sample.key true;
      EvUpload "/tmp/wide_c.csv"
        "lyon/wide/3647/2022/location-3647-20220101.csv" true;
      EvDelete Sample.key true]).
Proof. vm_compute. reflexivity. Qed.

(** [upload_with_retry_ledger] on five failing attempts: one ledger line. *)
Lemma upload_with_retry_ledger_witness :
  let w := Sample.staged "/tmp/temp_b.csv" "datetime,parameter,value"
             [true; true; true; true; true] in
  let file := "lyon/archive/3647/2022/location-3647-20220101.csv" in
  let w' := (upload_with_retry "/tmp/temp_b.csv" file 5 2 w).2 in
  sleepable 2
  ∧ upload_outcomes (new_events w w') = [false; false; false; false; false]
  ∧ ledger w' = Some (file +:+ String LF "")
  ∧ logged_keys (new_events w w') = [file].
Proof.
  intros w file w'.
  assert (Hdelay : sleepable 2) by (unfold sleepable, sleep_max; lia).
  split; [exact Hdelay|]. split; [reflexivity|].
  apply (upload_with_retry_ledger "/tmp/temp_b.csv" file 5 2 w Hdelay).
  - lia.
  - vm_compute. repeat constructor.
Defined.

(** [upload_with_retry_attempts] on four failing attempts and a fifth that
    succeeds: the object is stored and the ledger is still absent. *)
Lemma upload_with_retry_attempts_witness :
  let w := Sample.staged "/tmp/temp_b.csv" "datetime,parameter,value"
             [true; true; true; true; false] in
  let file := "lyon/archive/3647/2022/location-3647-20220101.csv" in
  let w' := (upload_with_retry "/tmp/temp_b.csv" file 5 2 w).2 in
  sleepable 2
  ∧ s3 w' !! file = Some "datetime,parameter,value"
  ∧ logged_keys (new_events w w') = []
  ∧ ledger w' = None.
Proof.
  intros w file w'.
  assert (Hdelay : sleepable 2) by (unfold sleepable, sleep_max; lia).
  split; [exact Hdelay|]. split; [reflexivity|].
  apply (upload_with_retry_attempts "/tmp/temp_b.csv" file 5 2 w Hdelay);
    reflexivity.
Defined.


(** [transform_csv_empty_input] on a compressed file with a header line
    and no reading. *)
Lemma transform_csv_empty_input_witness :
  let w := Sample.world {[ Sample.key := Sample.header_only ]} None [] in
  ∃ w', transform_csv (H := Sample.env) Sample.key "lyon" "3647" "2022" w
        = (Ok (), w')
    ∧ upload_targets (new_events w w') = []
    ∧ deleted_keys (new_events w w') = []
    ∧ logged_keys (new_events w w') = [Sample.key]
    ∧ ledger w' = Some (Sample.key +:+ String LF "")
    ∧ s3 w' = s3 w
    ∧ s3 w' !! Sample.key = Some Sample.header_only.
Proof.
  intros w.
  apply (transform_csv_empty_input (H := Sample.env)
           Sample.key "lyon" "3647" "2022" Sample.header_only w).
  - reflexivity.
  - reflexivity.
  - intros df Hdf. vm_compute in Hdf. injection Hdf as <-. reflexivity.
Defined.

(** [transform_csv_cleans_scratch] on the day of readings. *)
Lemma transform_csv_cleans_scratch_witness :
  let w := Sample.world {[ Sample.key := Sample.readings ]} None [] in
  ∃ w', transform_csv (H := Sample.env) Sample.key "lyon" "3647" "2022" w
        = (Ok (), w')
    ∧ fs w' = foldl (λ m p, delete p m) (fs w)
                (scratch_files (H := Sample.env) Sample.key (uuids w))
    ∧ fs w' ⊆ fs w
    ∧ ∀ p, p ∈ scratch_files (H := Sample.env) Sample.key (uuids w) →
           fs w' !! p = None.
Proof.
  intros w.
  apply (transform_csv_cleans_scratch (H := Sample.env)
           Sample.key "lyon" "3647" "2022" w).
  reflexivity.
Defined.

(** [transform_csv_ignores_other_keys] on a text file of the bucket. *)
Lemma transform_csv_ignores_other_keys_witness :
  let w := Sample.world {[ "lyon/3647/2022/notes.txt" := "text" ]} None [] in
  ∃ w', transform_csv (H := Sample.env)
          "lyon/3647/2022/notes.txt" "lyon" "3647" "2022" w = (Ok (), w')
    ∧ s3 w' = s3 w ∧ fs w' = fs w ∧ ledger w' = ledger w
    ∧ trace w' = trace w ∧ faults w' = faults w.
Proof.
  intros w.
  apply (transform_csv_ignores_other_keys (H := Sample.env)
           "lyon/3647/2022/notes.txt" "lyon" "3647" "2022" w);
    reflexivity.
Defined.

(** [main_retry_absent_ledger] with an unprocessed object in the bucket:
    nothing is fetched. *)
Lemma main_retry_absent_ledger_witness :
  let w := Sample.world {[ Sample.key := Sample.readings ]} None [] in
  getsize_ledger w = (Raise FileNotFoundError, w)
  ∧ main_retry (H := Sample.env) w = (Ok (), w).
Proof.
  intros w. apply (main_retry_absent_ledger (H := Sample.env) w).
  reflexivity.
Defined.


(** C6.  A retry pass over a ledger that holds the key
    [lyon/3647/2022/loc3647-2022-01.csv.gz], whose object is in the
    bucket: the driver takes ["2022"] for the location id and ["01.c"] for
    the year, where the path of the key has [3647] and [2022], and the
    data is filed under [lyon/archive/2022/01.c/] and
    [lyon/wide/2022/01.c/]; the call of the main pass on the same key
    files it under [lyon/archive/3647/2022/] and [lyon/wide/3647/2022/].
    On [Sample.key], named as the bucket names its files, the driver
    recovers [3647] and [2022]. *)
Theorem retry_failed_files_misfiles_key :
  let key := "lyon/3647/2022/loc3647-2022-01.csv.gz" in
  let w := Sample.world {[ key := Sample.readings ]}
             (Some (key +:+ String LF "")) [] in
  let retried := retry_failed_files (H := Sample.env) w in
  let first := transform_csv (H := Sample.env) key "lyon" "3647" "2022" w in
  key = source_key "lyon" "3647" "2022" "loc3647-2022-01.csv.gz"
  ∧ (parse_failed_file key w).1 = Ok ("2022", "01.c")
  ∧ retried.1 = Ok ()
  ∧ upload_targets (new_events w retried.2)
    = ["lyon/archive/2022/01.c/loc3647-2022-01.csv";
       "lyon/wide/2022/01.c/loc3647-2022-01.csv"]
  ∧ upload_targets (new_events w first.2)
    = ["lyon/archive/3647/2022/loc3647-2022-01.csv";
       "lyon/wide/3647/2022/loc3647-2022-01.csv"]
  ∧ (parse_failed_file Sample.key w).1 = Ok ("3647", "2022").
Proof. repeat split; vm_compute; reflexivity. Qed.

(** C1.  A retry pass over a ledger that holds one key whose object cannot
    be fetched: the single attempt fails inside [transform_csv], which logs
    the key and returns normally; the pass counts that as a success and
    rewrites the ledger to an empty file. *)
Theorem retry_pass_forgets_failing_key :
  let w := Sample.world ∅ (Some (Sample.key +:+ String LF "")) [] in
  let run := retry_failed_files (H := Sample.env) w in
  run.1 = Ok ()
  ∧ trace run.2 = [EvDownload Sample.key "/tmp/temp_a.gz" false;
                   EvLogFailure Sample.key]
  ∧ ledger run.2 = Some ""
  ∧ ledger run.2 ≠ Some (Sample.key +:+ String LF "").
Proof. repeat split; [reflexivity..|discriminate]. Qed.

(** C9.  A source key whose file name holds [.csv.gz] before its final
    suffix: [replace] rewrites both occurrences, and the two uploads go to
    keys that are not the file name without its compression suffix. *)
Theorem transform_csv_inner_suffix_targets :
  let filename := "location-3647-20220101.csv.gz.csv.gz" in
  let file := source_key "lyon" "3647" "2022" filename in
  let w := Sample.world {[ file := Sample.readings ]} None [] in
  let run := transform_csv (H := Sample.env) file "lyon" "3647" "2022" w in
  upload_targets (trace run.2)
  = ["lyon/archive/3647/2022/location-3647-20220101.csv.csv";
     "lyon/wide/3647/2022/location-3647-20220101.csv.csv"]
  ∧ archive_target "lyon" "3647" "2022" filename
    = "lyon/archive/3647/2022/location-3647-20220101.csv.gz.csv"
  ∧ wide_target "lyon" "3647" "2022" filename
    = "lyon/wide/3647/2022/location-3647-20220101.csv.gz.csv".
Proof. repeat split; reflexivity. Qed.

(** ** The ledger file as lines *)

Lemma universal_newlines_plain (s : string) :
  Str.mem CR s = false → universal_newlines s = s.
Proof.
  induction s as [|c s IH]; [done|]. cbn [Str.mem universal_newlines].
  intros [Hc Hs]%orb_false_iff. rewrite Hc. by rewrite IH.
Qed.

Lemma split_plain (a : string) (sep : ascii) :
  Str.mem sep a = false → Str.split a sep = [a].
Proof.
  intros Ha. rewrite <- (append_empty_r a) at 1.
  rewrite (split_app a "" sep "" []) by done. by rewrite append_empty_r.
Qed.

(** Splitting distributes over a separator. *)
Lemma split_cat (a b : string) (sep : ascii) :
  Str.split (a +:+ String sep b) sep = Str.split a sep ++ Str.split b sep.
Proof.
  induction a as [|c a IH]; [by rewrite append_nil, split_sep|].
  rewrite append_cons. cbn [Str.split]. rewrite IH.
  destruct (Ascii.eqb c sep); [done|].
  destruct (Str.split a sep) as [|h t] eqn:Ha; [|done].
  by apply split_nonempty in Ha.
Qed.

Lemma ledger_text_snoc (files : list string) (file : string) :
  ledger_text (files ++ [file])
  = ledger_text files +:+ file +:+ String LF "".
Proof.
  unfold ledger_text. induction files as [|f files IH]; cbn [app foldr].
  - by rewrite append_nil.
  - by rewrite IH, !append_assoc.
Qed.

Lemma ledger_text_no_cr (files : list string) :
  Forall (λ file, newline_free file = true) files →
  Str.mem CR (ledger_text files) = false.
Proof.
  induction 1 as [|f files Hf _ IH]; [done|].
  cbn [ledger_text foldr]. fold (ledger_text files).
  apply andb_true_iff in Hf as [_ Hcr]. apply negb_true_iff in Hcr.
  rewrite !mem_app, Hcr, IH. reflexivity.
Qed.

Lemma split_ledger_text (files : list string) :
  Forall (λ file, newline_free file = true) files →
  Str.split (ledger_text files) LF = files ++ [""].
Proof.
  induction 1 as [|f files Hf _ IH]; [done|].
  cbn [ledger_text foldr]. fold (ledger_text files).
  apply andb_true_iff in Hf as [Hlf _]. apply negb_true_iff in Hlf.
  rewrite append_cons, append_nil, split_cat, IH, split_plain by done. done.
Qed.

Lemma drop_last_empty_snoc (l : list string) :
  drop_last_empty (l ++ [""]) = l.
Proof.
  induction l as [|x l IH]; [done|].
  cbn [app drop_last_empty]. rewrite IH.
  by destruct (l ++ [""]) eqn:Hl; [destruct l|].
Qed.

(** A ledger of newline-terminated lines reads back as its lines. *)
Lemma file_lines_ledger_text (files : list string) :
  Forall (λ file, newline_free file = true) files →
  file_lines (ledger_text files) = files.
Proof.
  intros Hfiles. unfold file_lines.
  rewrite universal_newlines_plain by by apply ledger_text_no_cr.
  by rewrite split_ledger_text, drop_last_empty_snoc.
Qed.

(** X1.  Appending a key to a ledger of newline-terminated lines (or to an
    absent ledger) and reading the ledger gives the earlier keys followed
    by the new one, each stripped of surrounding whitespace, when no key
    holds a line terminator. *)
Theorem read_after_log_failure (logged : list string) (file : string)
    (w : World) :
  ledger w = Some (ledger_text logged) ∨ (ledger w = None ∧ logged = []) →
  Forall (λ file, newline_free file = true) (logged ++ [file]) →
  read_log_failure (log_failure file w).2
  = (Ok (Str.strip <$> logged ++ [file]), (log_failure file w).2).
Proof.
  intros Hledger Hfree. unfold read_log_failure, log_failure.
  cbn [snd ledger emit set_ledger].
  assert (Htext : ledger_append file (ledger w)
                  = Some (ledger_text (logged ++ [file]))).
  { rewrite ledger_text_snoc.
    destruct Hledger as [->|[-> ->]]; [done|]. cbn. by rewrite append_nil. }
  rewrite Htext, file_lines_ledger_text by done. done.
Qed.

(** X2.  Rewriting the ledger with a list of keys and reading it gives
    these keys, stripped, when no key holds a line terminator. *)
Theorem read_after_write_ledger (files : list string) (w : World) :
  Forall (λ file, newline_free file = true) files →
  read_log_failure (write_ledger files w).2
  = (Ok (Str.strip <$> files), (write_ledger files w).2).
Proof.
  intros Hfree. unfold read_log_failure, write_ledger.
  cbn [snd ledger set_ledger]. fold (ledger_text files).
  by rewrite file_lines_ledger_text.
Qed.

(** ** The transfer primitive against the network schedule *)

(** Bring a world built by the setters to its six fields. *)
Ltac world_fields :=
  unfold emit, set_s3, set_fs, set_ledger, set_faults, set_uuids;
  cbn [s3 fs ledger faults uuids trace].

Lemma s3_request_ok (w : World) :
  head (faults w) ≠ Some true →
  s3_request w = (Ok (), set_faults (tail (faults w)) w).
Proof.
  unfold s3_request. destruct w as [o f l [|[] rest] u t]; cbn; done.
Qed.

Lemma s3_request_fault (w : World) (rest : list bool) :
  faults w = true :: rest →
  s3_request w = (Raise S3Error, set_faults rest w).
Proof. unfold s3_request. by intros ->. Qed.

(** [k] faulty requests, fewer than the attempts left, then a request that
    goes through. *)
Lemma upload_loop_absorbs (path file body : string) (retry delay : Z)
    (tl : list bool) (k : nat) :
  sleepable delay →
  ∀ (n : nat) (attempt : Z) (w : World),
    fs w !! path = Some body →
    faults w = replicate k true ++ tl →
    head tl ≠ Some true →
    (attempt + Z.of_nat k < retry)%Z →
    (Z.to_nat (retry - attempt) ≤ n)%nat →
    upload_loop n path file retry delay attempt w
    = (Ok (),
       mkWorld (<[file := body]> (s3 w)) (fs w) (ledger w) (tail tl) (uuids w)
         (trace w ++ failed_rounds path file delay k
                  ++ [EvUpload path file true])).
Proof.
  intros Hdelay.
  induction k as [|k IH]; intros n attempt w Hfile Hfaults Hhead Hk Hn.
  - destruct n as [|n]; [lia|]. cbn [upload_loop replicate app] in *.
    destruct (Z.ltb_spec attempt retry); [|lia].
    unfold upload_file. rewrite Hfile, s3_request_ok by by rewrite Hfaults.
    by rewrite Hfaults.
  - destruct n as [|n]; [lia|]. cbn [upload_loop replicate app] in *.
    destruct (Z.ltb_spec attempt retry); [|lia].
    unfold upload_file. rewrite Hfile, (s3_request_fault _ _ Hfaults).
    destruct (Z.ltb_spec (attempt + 1) retry); [|lia].
    rewrite bind_run, (sleep_ok _ _ Hdelay).
    rewrite (IH n (attempt + 1)%Z) by (done || lia).
    cbn [s3 fs ledger uuids trace emit set_faults].
    by rewrite failed_rounds_S, <- !app_assoc.
Qed.

(** As many faulty requests as attempts left. *)
Lemma upload_loop_exhausts (path file body : string) (retry delay : Z)
    (rest : list bool) (n : nat) :
  sleepable delay →
  ∀ (attempt : Z) (w : World),
    fs w !! path = Some body →
    (attempt < retry)%Z →
    faults w = replicate (Z.to_nat (retry - attempt)) true ++ rest →
    (Z.to_nat (retry - attempt) ≤ n)%nat →
    upload_loop n path file retry delay attempt w
    = (Ok (),
       mkWorld (s3 w) (fs w) (ledger_append file (ledger w)) rest (uuids w)
         (trace w ++ failed_rounds path file delay
                       (Z.to_nat (retry - attempt) - 1)
                  ++ [EvUpload path file false; EvLogFailure file])).
Proof.
  intros Hdelay.
  induction n as [|n IH]; intros attempt w Hfile Hlt Hfaults Hn; [lia|].
  cbn [upload_loop]. destruct (Z.ltb_spec attempt retry); [|lia].
  replace (Z.to_nat (retry - attempt))
    with (S (Z.to_nat (retry - (attempt + 1)))) in Hfaults |- * by lia.
  cbn [replicate app] in Hfaults.
  unfold upload_file. rewrite Hfile, (s3_request_fault _ _ Hfaults).
  destruct (Z.ltb_spec (attempt + 1) retry) as [Hmore|Hlast].
  - rewrite bind_run, (sleep_ok _ _ Hdelay).
    rewrite (IH (attempt + 1)%Z) by (done || lia).
    cbn [s3 fs ledger uuids trace emit set_faults].
    replace (S (Z.to_nat (retry - (attempt + 1))) - 1)%nat
      with (S (Z.to_nat (retry - (attempt + 1)) - 1)) by lia.
    by rewrite failed_rounds_S, <- !app_assoc.
  - rewrite bind_run. cbn [log_failure].
    replace (Z.to_nat (retry - (attempt + 1))) with 0%nat in * by lia.
    destruct n as [|n]; cbn [upload_loop];
      [|destruct (Z.ltb_spec (attempt + 1) retry); [lia|]];
      unfold ret; world_fields; cbn [failed_rounds replicate concat app];
      by rewrite <- app_assoc.
Qed.

(** Without the local file every attempt fails before a request is sent. *)
Lemma upload_loop_missing_file (path file : string) (retry delay : Z)
    (n : nat) :
  sleepable delay →
  ∀ (attempt : Z) (w : World),
    fs w !! path = None →
    (attempt < retry)%Z →
    (Z.to_nat (retry - attempt) ≤ n)%nat →
    upload_loop n path file retry delay attempt w
    = (Ok (),
       mkWorld (s3 w) (fs w) (ledger_append file (ledger w)) (faults w)
         (uuids w)
         (trace w ++ failed_rounds path file delay
                       (Z.to_nat (retry - attempt) - 1)
                  ++ [EvUpload path file false; EvLogFailure file])).
Proof.
  intros Hdelay.
  induction n as [|n IH]; intros attempt w Hfile Hlt Hn; [lia|].
  cbn [upload_loop]. destruct (Z.ltb_spec attempt retry); [|lia].
  unfold upload_file. rewrite Hfile.
  destruct (Z.ltb_spec (attempt + 1) retry) as [Hmore|Hlast].
  - rewrite bind_run, (sleep_ok _ _ Hdelay).
    rewrite (IH (attempt + 1)%Z) by (done || lia).
    cbn [s3 fs ledger uuids trace faults emit].
    replace (Z.to_nat (retry - attempt) - 1)%nat
      with (S (Z.to_nat (retry - (attempt + 1)) - 1)) by lia.
    by rewrite failed_rounds_S, <- !app_assoc.
  - rewrite bind_run. cbn [log_failure].
    replace (Z.to_nat (retry - attempt) - 1)%nat with 0%nat by lia.
    destruct n as [|n]; cbn [upload_loop];
      [|destruct (Z.ltb_spec (attempt + 1) retry); [lia|]];
      unfold ret; world_fields; cbn [failed_rounds replicate concat app];
      by rewrite <- app_assoc.
Qed.

(** X3.  When the delay is one [time.sleep] accepts, the local file
    exists and the network fails [k] requests, fewer than the budget,
    before it lets one through, the call stores the file under the key,
    consumes exactly these [k + 1] requests, leaves the ledger alone and
    sleeps [k] times. *)
Theorem upload_with_retry_absorbs_faults (path file body : string)
    (retry delay : Z) (k : nat) (tl : list bool) (w : World) :
  sleepable delay →
  fs w !! path = Some body →
  faults w = replicate k true ++ tl →
  head tl ≠ Some true →
  (Z.of_nat k < retry)%Z →
  let run := upload_with_retry path file retry delay w in
  run.1 = Ok ()
  ∧ s3 run.2 = <[file := body]> (s3 w)
  ∧ ledger run.2 = ledger w
  ∧ faults run.2 = tail tl
  ∧ new_events w run.2
    = failed_rounds path file delay k ++ [EvUpload path file true].
Proof.
  intros Hdelay Hfile Hfaults Hhead Hk run. unfold run, upload_with_retry.
  rewrite (upload_loop_absorbs path file body retry delay tl k Hdelay)
    by (done || lia).
  cbn [fst snd s3 ledger faults]. repeat split.
  by apply new_events_app.
Qed.

(** X4.  When the delay is one [time.sleep] accepts and the network fails
    as many requests as the budget has attempts, the call leaves the
    bucket as it was, consumes exactly that many requests and leaves a
    ledger file that holds its old text (nothing, when it did not exist)
    followed by the key and a line feed. *)
Theorem upload_with_retry_exhausted (path file body : string)
    (retry delay : Z) (rest : list bool) (w : World) :
  sleepable delay →
  (0 < retry)%Z →
  fs w !! path = Some body →
  faults w = replicate (Z.to_nat retry) true ++ rest →
  let run := upload_with_retry path file retry delay w in
  run.1 = Ok ()
  ∧ s3 run.2 = s3 w
  ∧ ledger run.2 = Some (default "" (ledger w) +:+ file +:+ String LF "")
  ∧ faults run.2 = rest
  ∧ upload_outcomes (new_events w run.2) = replicate (Z.to_nat retry) false.
Proof.
  intros Hdelay Hretry Hfile Hfaults run. unfold run, upload_with_retry.
  rewrite (upload_loop_exhausts path file body retry delay rest _ Hdelay)
    by (rewrite ?Z.sub_0_r; done || lia).
  cbn [fst snd s3 ledger faults]. repeat split.
  erewrite new_events_app by reflexivity.
  rewrite upload_outcomes_rounds, Z.sub_0_r. cbn.
  replace (Z.to_nat retry) with (S (Z.to_nat retry - 1)) at 2 by lia.
  by rewrite replicate_S_end.
Qed.

(** X5.  When the delay is one [time.sleep] accepts and the local file
    does not exist, the call sends no request at all: it fails [retry]
    times on the spot, sleeping in between, leaves the bucket and the
    network schedule as they were and leaves a ledger file that holds its
    old text (nothing, when it did not exist) followed by the key and a
    line feed. *)
Theorem upload_with_retry_missing_file (path file : string)
    (retry delay : Z) (w : World) :
  sleepable delay →
  (0 < retry)%Z →
  fs w !! path = None →
  let run := upload_with_retry path file retry delay w in
  run.1 = Ok ()
  ∧ s3 run.2 = s3 w
  ∧ faults run.2 = faults w
  ∧ ledger run.2 = Some (default "" (ledger w) +:+ file +:+ String LF "")
  ∧ new_events w run.2
    = failed_rounds path file delay (Z.to_nat retry - 1)
      ++ [EvUpload path file false; EvLogFailure file].
Proof.
  intros Hdelay Hretry Hfile run. unfold run, upload_with_retry.
  rewrite (upload_loop_missing_file path file retry delay _ Hdelay)
    by (done || lia).
  cbn [fst snd s3 ledger faults]. repeat split.
  rewrite Z.sub_0_r. by apply new_events_app.
Qed.

(** X18.  With a negative delay and a budget of two attempts or more, a
    first attempt that fails (no local file, or a request the network
    fails) is the end of the call: [time.sleep] raises [ValueError] inside
    the handler, the exception leaves [upload_with_retry], and nothing is
    retried, stored or logged. *)
Theorem upload_with_retry_negative_delay (path file : string)
    (retry delay : Z) (w : World) :
  (- sleep_max ≤ delay < 0)%Z →
  (2 ≤ retry)%Z →
  fs w !! path = None ∨ head (faults w) = Some true →
  let run := upload_with_retry path file retry delay w in
  run.1 = Raise ValueError
  ∧ s3 run.2 = s3 w
  ∧ ledger run.2 = ledger w
  ∧ new_events w run.2 = [EvUpload path file false].
Proof.
  intros Hdelay Hretry Hfails run. unfold run, upload_with_retry.
  destruct (Z.to_nat retry) as [|n] eqn:Hn; [lia|]. cbn [upload_loop].
  destruct (Z.ltb_spec 0 retry); [|lia].
  destruct (Z.ltb_spec (0 + 1) retry); [|lia].
  assert (Hsleep : ∀ w1, sleep delay w1 = (Raise ValueError, w1)).
  { intros w1. unfold sleep.
    destruct (Z.ltb_spec sleep_max (Z.abs delay)); [lia|].
    destruct (Z.ltb_spec delay 0); [done|lia]. }
  assert (Hup : ∃ e w1, upload_file path file w = (Raise e, w1)
                        ∧ s3 w1 = s3 w ∧ ledger w1 = ledger w
                        ∧ trace w1 = trace w ++ [EvUpload path file false]).
  { unfold upload_file. destruct (fs w !! path) as [body|] eqn:Hfile.
    - destruct Hfails as [?|Hhead]; [done|].
      destruct (faults w) as [|[] rest] eqn:Hfaults; try done.
      rewrite (s3_request_fault w rest Hfaults). eauto 10.
    - eauto 10. }
  destruct Hup as (e & w1 & -> & Hs3 & Hled & Htr).
  rewrite bind_run, Hsleep. cbn [fst snd].
  repeat split; try done. by apply new_events_app.
Qed.

(** ** The transform unit against the network schedule *)

Lemma download_file_ok (key path body : string) (w : World) :
  head (faults w) ≠ Some true →
  s3 w !! key = Some body →
  download_file key path w
  = (Ok (),
     mkWorld (s3 w) (<[path := body]> (fs w)) (ledger w) (tail (faults w))
       (uuids w) (trace w ++ [EvDownload key path true])).
Proof.
  intros Hhead Hobj. unfold download_file.
  rewrite s3_request_ok by done. cbn [s3 set_faults]. by rewrite Hobj.
Qed.

Lemma delete_object_ok (key : string) (w : World) :
  head (faults w) ≠ Some true →
  delete_object key w
  = (Ok (),
     mkWorld (delete key (s3 w)) (fs w) (ledger w) (tail (faults w))
       (uuids w) (trace w ++ [EvDelete key true])).
Proof.
  intros Hhead. unfold delete_object. by rewrite s3_request_ok.
Qed.

Lemma upload_with_retry_ok (path file body : string) (w : World) :
  fs w !! path = Some body →
  faults w = [] →
  upload_with_retry path file 5 2 w
  = (Ok (),
     mkWorld (<[file := body]> (s3 w)) (fs w) (ledger w) [] (uuids w)
       (trace w ++ [EvUpload path file true])).
Proof.
  intros Hfile Hfaults. unfold upload_with_retry.
  by rewrite (upload_loop_absorbs path file body 5 2 [] 0).
Qed.


Section TransformSchedules.
Context `{Collaborators}.

Variables (file city location_id year body csv : string).
Variables (df wd : DataFrame).
Hypothesis stored_csv : read_csv csv = Some df.
Hypothesis has_rows : df_empty df = false.
Hypothesis reshapes : pivot_wide df location_id = Some wd.

(** From validation on, over a network without faults. *)
Lemma archive_and_widen_ok (csv_path wide_path archive wide : string)
    (w : World) :
  fs w !! csv_path = Some csv →
  faults w = [] →
  archive_and_widen file csv_path wide_path archive wide location_id w
  = (Ok (),
     mkWorld
       (delete file (<[wide := to_csv wd]>
                       (delete file (<[archive := csv]> (s3 w)))))
       (<[wide_path := to_csv wd]> (fs w)) (ledger w) [] (uuids w)
       (trace w ++ [EvUpload csv_path archive true; EvDelete file true;
                    EvUpload wide_path wide true; EvDelete file true])).
Proof.
  intros Hfile Hfaults. unfold archive_and_widen, pd_read_csv.
  rewrite bind_run, Hfile, stored_csv, bind_run, has_rows.
  rewrite (upload_with_retry_ok _ _ csv) by done.
  rewrite bind_run, delete_object_ok by done.
  rewrite bind_run. unfold write_wide. rewrite reshapes. world_fields.
  rewrite bind_run, (upload_with_retry_ok _ _ (to_csv wd))
    by (done || apply lookup_insert_eq).
  rewrite delete_object_ok by done. world_fields.
  by rewrite <- !app_assoc.
Qed.


Hypothesis stored : decoded file body = Some csv.

(** The [try] block up to the validation: the download and, on the
    compressed branch, the decompression put [csv] in the csv path. *)
Lemma try_block_fetch (n : nat) (w : World) :
  s3 w !! file = Some body →
  head (faults w) ≠ Some true →
  ∃ path files,
    try_block file city location_id year n w
    = archive_and_widen file (csv_path_at n) (wide_path_at n)
        (archive_file file city location_id year)
        (wide_file file city location_id year) location_id
        (mkWorld (s3 w) files (ledger w) (tail (faults w)) (uuids w)
           (trace w ++ [EvDownload file path true]))
    ∧ files !! csv_path_at n = Some csv.
Proof.
  intros Hobj Hhead. unfold try_block, decoded in *.
  destruct (Str.endswith file "csv.gz").
  - unfold gz_body. eexists _, _.
    rewrite bind_run, (download_file_ok _ _ body) by done.
    rewrite bind_run. unfold gunzip_file. world_fields.
    rewrite lookup_insert_eq, stored. world_fields.
    split; [reflexivity|]. apply lookup_insert_eq.
  - injection stored as <-. unfold csv_body. eexists _, _.
    rewrite bind_run, (download_file_ok _ _ body) by done.
    split; [reflexivity|]. apply lookup_insert_eq.
Qed.

(** X6.  On a recognized key whose object decodes to a table with data
    rows that reshapes, over a network without faults, [transform_csv]
    returns normally having stored the decoded content, unchanged, under
    the archive key, then the reshaped table under the wide key, and
    deleted the source after each upload; it logs nothing. *)
Theorem transform_csv_fault_free (w : World) :
  recognized file = true →
  s3 w !! file = Some body →
  faults w = [] →
  let archive := archive_file file city location_id year in
  let wide := wide_file file city location_id year in
  let run := transform_csv file city location_id year w in
  run.1 = Ok ()
  ∧ s3 run.2
    = delete file (<[wide := to_csv wd]>
                     (delete file (<[archive := csv]> (s3 w))))
  ∧ s3 run.2 !! file = None
  ∧ ledger run.2 = ledger w
  ∧ upload_targets (new_events w run.2) = [archive; wide]
  ∧ deleted_keys (new_events w run.2) = [file; file]
  ∧ logged_keys (new_events w run.2) = [].
Proof.
  intros Hrec Hobj Hfaults archive wide run.
  destruct (try_block_fetch (uuids w) (after_draws w)) as
    (path & files & Hfetch & Hcsv); [done|by cbn; rewrite Hfaults|].
  rewrite archive_and_widen_ok in Hfetch
    by (done || by cbn; rewrite Hfaults).
  unfold run. rewrite (transform_csv_run _ _ _ _ _ _ _ Hrec Hfetch).
  cbn [fst snd s3 ledger set_fs after_draws set_uuids].
  split; [done|]. split; [done|]. split; [apply lookup_delete_eq|].
  split; [done|].
  erewrite new_events_app; [|cbn; rewrite <- app_assoc; reflexivity].
  done.
Qed.


End TransformSchedules.

(** ** What a call of the transform unit stays within *)

#[global] Instance s3_frame_preorder (keys : list string) :
  PreOrder (s3_frame keys).
Proof.
  split.
  - by intros w k _.
  - intros w1 w2 w3 H12 H23 k Hk. by rewrite H23, H12.
Qed.

#[global] Instance only_events_preorder (P : event → Prop) :
  PreOrder (only_events P).
Proof.
  split.
  - intros w. exists []. by rewrite app_nil_r.
  - intros w1 w2 w3 (e1 & H1 & HP1) (e2 & H2 & HP2). exists (e1 ++ e2).
    split; [by rewrite H2, H1, app_assoc|by apply Forall_app].
Qed.

#[global] Instance ledger_extends_preorder : PreOrder ledger_extends.
Proof.
  split.
  - intros w. split; [|done]. exists "". by rewrite append_empty_r.
  - intros w1 w2 w3 [[m1 H1] S1] [[m2 H2] S2]. split; [|auto].
    exists (m1 +:+ m2). by rewrite H2, H1, append_assoc.
Qed.

Lemma preserves_s3_same {A} (keys : list string) (m : M A) :
  (∀ w, s3 (m w).2 = s3 w) → preserves (s3_frame keys) m.
Proof. intros Hm w k _. by rewrite Hm. Qed.

Lemma preserves_trace_same {A} (P : event → Prop) (m : M A) :
  (∀ w, trace (m w).2 = trace w) → preserves (only_events P) m.
Proof. intros Hm w. exists []. by rewrite Hm, app_nil_r. Qed.

Lemma preserves_ledger_same {A} (m : M A) :
  (∀ w, ledger (m w).2 = ledger w) → preserves ledger_extends m.
Proof.
  intros Hm w. split; rewrite Hm; [|done].
  exists "". by rewrite append_empty_r.
Qed.

Lemma log_failure_extends (file : string) :
  preserves ledger_extends (log_failure file).
Proof.
  intros w. split; [|by eexists]. cbn. eexists.
  by destruct (ledger w).
Qed.

Lemma upload_with_retry_extends (path file : string) (retry delay : Z) :
  sleepable delay →
  preserves ledger_extends (upload_with_retry path file retry delay).
Proof.
  intros Hdelay w.
  destruct (upload_with_retry_run path file retry delay w Hdelay)
    as (w' & evs & -> & _ & _ & _ & Hcases). cbn [snd].
  destruct Hcases as [(_ & _ & ->)|[(n & body & _ & _ & _ & Hled & _)
                                    |(_ & _ & Hled & _)]].
  - reflexivity.
  - split; rewrite Hled; [|done]. exists "". by rewrite append_empty_r.
  - split; rewrite Hled; [|by eexists].
    eexists. by destruct (ledger w).
Qed.

Lemma download_file_s3_frame (keys : list string) (key path : string) :
  preserves (s3_frame keys) (download_file key path).
Proof.
  apply preserves_s3_same. intros w.
  by destruct (download_file_effect key path w) as (ok & -> & _).
Qed.

Lemma download_file_only (P : event → Prop) (key path : string) :
  (∀ ok, P (EvDownload key path ok)) →
  preserves (only_events P) (download_file key path).
Proof.
  intros HP w. destruct (download_file_effect key path w) as (ok & _ & _ & Htr).
  exists [EvDownload key path ok]. split; [done|]. by apply Forall_singleton.
Qed.

Lemma delete_object_s3_frame (keys : list string) (key : string) :
  key ∈ keys → preserves (s3_frame keys) (delete_object key).
Proof.
  intros Hin w k Hk. unfold delete_object.
  destruct (s3_request_cases w) as (r & rest & ->).
  destruct r as [[]|e]; [|done]. cbn. apply lookup_delete_ne. by intros ->.
Qed.

Lemma delete_object_only (P : event → Prop) (key : string) :
  (∀ ok, P (EvDelete key ok)) →
  preserves (only_events P) (delete_object key).
Proof.
  intros HP w. unfold delete_object.
  destruct (s3_request_cases w) as (r & rest & ->).
  destruct r as [[]|e]; cbn; eexists [_];
    (split; [reflexivity|by apply Forall_singleton]).
Qed.

Lemma upload_with_retry_s3_frame (keys : list string) (path file : string)
    (retry delay : Z) :
  sleepable delay →
  file ∈ keys →
  preserves (s3_frame keys) (upload_with_retry path file retry delay).
Proof.
  intros Hdelay Hin w k Hk.
  destruct (upload_with_retry_run path file retry delay w Hdelay)
    as (w' & evs & -> & _ & _ & _ & Hcases). cbn [snd].
  destruct Hcases as [(_ & _ & ->)|[(n & body & _ & _ & _ & _ & ->)
                                    |(_ & _ & _ & ->)]]; try done.
  apply lookup_insert_ne. by intros ->.
Qed.

Lemma Forall_failed_rounds (P : event → Prop) (path file : string)
    (delay : Z) (k : nat) :
  P (EvUpload path file false) → P (EvSleep delay) →
  Forall P (failed_rounds path file delay k).
Proof.
  intros Hup Hsleep. induction k as [|k IH]; [constructor|].
  rewrite failed_rounds_S. by repeat constructor.
Qed.

Lemma upload_with_retry_only (P : event → Prop) (path file : string)
    (retry delay : Z) :
  sleepable delay →
  (∀ ok, P (EvUpload path file ok)) → P (EvSleep delay) →
  P (EvLogFailure file) →
  preserves (only_events P) (upload_with_retry path file retry delay).
Proof.
  intros Hdelay Hup Hsleep Hlog w.
  destruct (upload_with_retry_run path file retry delay w Hdelay)
    as (w' & evs & -> & Htr & _ & _ & Hcases). cbn [snd].
  exists evs. split; [done|].
  destruct Hcases as [(_ & -> & _)|[(n & body & _ & _ & -> & _)
                                   |(_ & -> & _)]]; [constructor| |];
    apply Forall_app; split; auto using Forall_failed_rounds;
    by repeat constructor.
Qed.

Section TransformScope.
Context `{Collaborators}.

(** The steps on local files change the scratch directory only. *)
Lemma gunzip_file_local (gz_path csv_path : string) (w : World) :
  ∃ files, (gunzip_file gz_path csv_path w).2 = set_fs files w.
Proof.
  unfold gunzip_file. destruct (fs w !! gz_path) as [z|];
    [destruct (gunzip z)|]; cbn [snd]; eauto.
  exists (fs w). by destruct w.
Qed.

Lemma pd_read_csv_local (csv_path : string) (w : World) :
  ∃ files, (pd_read_csv csv_path w).2 = set_fs files w.
Proof.
  exists (fs w). unfold pd_read_csv.
  destruct (fs w !! csv_path) as [c|]; [destruct (read_csv c)|];
    by destruct w.
Qed.

Lemma write_wide_local (df : DataFrame) (location_id wide_path : string)
    (w : World) :
  ∃ files, (write_wide df location_id wide_path w).2 = set_fs files w.
Proof.
  unfold write_wide. destruct (pivot_wide df location_id); cbn [snd]; eauto.
  exists (fs w). by destruct w.
Qed.

(** The steps after the download keep a relation that the uploads and the
    deletes keep. *)
Lemma archive_and_widen_preserves (R : relation World) `{!PreOrder R}
    (file csv_path wide_path archive wide location_id : string) :
  (∀ A (m : M A), (∀ w, ∃ files, (m w).2 = set_fs files w) →
                  preserves R m) →
  preserves R (upload_with_retry csv_path archive 5 2) →
  preserves R (upload_with_retry wide_path wide 5 2) →
  preserves R (delete_object file) →
  preserves R
    (archive_and_widen file csv_path wide_path archive wide location_id).
Proof.
  intros Hsame Harchive Hwide Hdelete. unfold archive_and_widen.
  apply preserves_bind; [done| |intros df].
  { apply Hsame, pd_read_csv_local. }
  apply preserves_bind; [done| |intros _].
  { apply preserves_if; [by apply preserves_raise|done]. }
  apply preserves_bind; [done|done|intros _].
  apply preserves_bind; [done| |intros _].
  { apply Hsame, write_wide_local. }
  by apply preserves_bind.
Qed.

Lemma try_block_preserves (R : relation World) `{!PreOrder R}
    (file city location_id year : string) (n : nat) :
  (∀ A (m : M A), (∀ w, ∃ files, (m w).2 = set_fs files w) →
                  preserves R m) →
  (∀ path, preserves R (download_file file path)) →
  (∀ path, preserves R
     (upload_with_retry path (archive_file file city location_id year) 5 2)) →
  (∀ path, preserves R
     (upload_with_retry path (wide_file file city location_id year) 5 2)) →
  preserves R (delete_object file) →
  preserves R (try_block file city location_id year n).
Proof.
  intros Hsame Hdownload Harchive Hwide Hdelete.
  unfold try_block, gz_body, csv_body.
  destruct (Str.endswith file "csv.gz").
  - apply preserves_bind; [done|done|intros _].
    apply preserves_bind; [done| |intros _].
    { apply Hsame, gunzip_file_local. }
    by apply archive_and_widen_preserves.
  - apply preserves_bind; [done|done|intros _].
    by apply archive_and_widen_preserves.
Qed.

(** What [transform_csv] leaves is what its [try] block leaves, up to the
    ledger entry of the handler and the scratch files. *)
Lemma transform_csv_after_block (file city location_id year : string)
    (w : World) :
  (recognized file = true
   ∧ ∃ r w1 logged,
       try_block file city location_id year (uuids w) (after_draws w)
       = (r, w1)
       ∧ s3 (transform_csv file city location_id year w).2 = s3 w1
       ∧ trace (transform_csv file city location_id year w).2
         = trace w1 ++ logged
       ∧ (logged = [] ∨ logged = [EvLogFailure file]))
  ∨ (recognized file = false
     ∧ s3 (transform_csv file city location_id year w).2 = s3 w
     ∧ trace (transform_csv file city location_id year w).2 = trace w).
Proof.
  destruct (recognized file) eqn:Hrec; [left|right]; (split; [done|]).
  - destruct (try_block file city location_id year (uuids w) (after_draws w))
      as [r w1] eqn:Hblock.
    rewrite (transform_csv_run _ _ _ _ _ _ _ Hrec Hblock).
    destruct r as [[]|e].
    + exists (Ok ()), w1, []. rewrite app_nil_r. auto.
    + exists (Raise e), w1, [EvLogFailure file]. auto.
  - by rewrite transform_csv_other_keys_run.
Qed.

(** X8.  A call of [transform_csv] changes the bucket at three keys at
    most, its source and its two targets: every other object is as it
    was, whatever the key, the content and the network do. *)
Theorem transform_csv_bucket_frame (file city location_id year key : string)
    (w : World) :
  key ≠ file →
  key ≠ archive_file file city location_id year →
  key ≠ wide_file file city location_id year →
  s3 (transform_csv file city location_id year w).2 !! key = s3 w !! key.
Proof.
  intros Hfile Harchive Hwide.
  destruct (transform_csv_after_block file city location_id year w)
    as [(_ & r & w1 & logged & Hblock & -> & _)|(_ & -> & _)]; [|done].
  pose proof (try_block_preserves
                (s3_frame [file; archive_file file city location_id year;
                           wide_file file city location_id year])
                file city location_id year (uuids w)) as Hframe.
  specialize (Hframe
    ltac:(intros A m Hm; apply preserves_s3_same; intros w0;
          by destruct (Hm w0) as [files ->])
    ltac:(intros path; apply download_file_s3_frame)
    ltac:(intros path; apply upload_with_retry_s3_frame;
          [apply sleepable_default|set_solver])
    ltac:(intros path; apply upload_with_retry_s3_frame;
          [apply sleepable_default|set_solver])
    ltac:(apply delete_object_s3_frame; set_solver)
    (after_draws w)).
  rewrite Hblock in Hframe. cbn [snd] in Hframe.
  apply Hframe. rewrite !not_elem_of_cons.
  repeat split; [done..|apply not_elem_of_nil].
Qed.

(** X9.  Every event of a call of [transform_csv] is about the keys of the
    call: it downloads and deletes its source only, uploads to its archive
    and wide targets only, and logs no other key than these three. *)
Theorem transform_csv_own_events (file city location_id year : string)
    (w : World) :
  Forall (own_event file (archive_file file city location_id year)
                         (wide_file file city location_id year))
         (new_events w (transform_csv file city location_id year w).2).
Proof.
  destruct (transform_csv_after_block file city location_id year w)
    as [(_ & r & w1 & logged & Hblock & _ & Htrace & Hlogged)
       |(_ & _ & Htrace)].
  - pose proof (try_block_preserves
                  (only_events
                     (own_event file
                        (archive_file file city location_id year)
                        (wide_file file city location_id year)))
                  file city location_id year (uuids w)) as Hframe.
    specialize (Hframe
      ltac:(intros A m Hm; apply preserves_trace_same; intros w0;
            by destruct (Hm w0) as [files ->])
      ltac:(intros path; apply download_file_only; by intros ok)
      ltac:(intros path; apply upload_with_retry_only;
            [apply sleepable_default|cbn; auto..])
      ltac:(intros path; apply upload_with_retry_only;
            [apply sleepable_default|cbn; auto..])
      ltac:(apply delete_object_only; by intros ok)
      (after_draws w)).
    rewrite Hblock in Hframe. destruct Hframe as (evs & Htr & Hown).
    cbn [snd trace after_draws set_uuids] in Htr.
    rewrite (new_events_app w _ (evs ++ logged))
      by (by rewrite Htrace, Htr, app_assoc).
    apply Forall_app. split; [done|].
    destruct Hlogged as [->| ->]; [constructor|].
    apply Forall_singleton. by left.
  - rewrite (new_events_app w _ []) by (by rewrite Htrace, app_nil_r).
    constructor.
Qed.

End TransformScope.

(** ** Work enumeration *)

Lemma substring_split (n : nat) :
  ∀ s, (n ≤ String.length s)%nat →
       s = substring 0 n s +:+ substring n (String.length s - n) s.
Proof.
  induction n as [|n IH]; intros s Hn.
  - rewrite Nat.sub_0_r, substring_all. by destruct s.
  - destruct s as [|c s]; cbn in Hn; [lia|].
    cbn [substring String.length]. rewrite append_cons.
    f_equal. apply IH. lia.
Qed.

Lemma endswith_inv (s suffix : string) :
  Str.endswith s suffix = true → ∃ a, s = a +:+ suffix.
Proof.
  unfold Str.endswith. intros [Hlen Heq]%andb_true_iff.
  apply Nat.leb_le in Hlen. apply String.eqb_eq in Heq.
  exists (substring 0 (String.length s - String.length suffix) s).
  pose proof (substring_split (String.length s - String.length suffix) s)
    as Hsplit.
  replace (String.length s - (String.length s - String.length suffix))%nat
    with (String.length suffix) in Hsplit by lia.
  rewrite Heq in Hsplit. apply Hsplit. lia.
Qed.

(** The suffix test of [process_year_folder] implies the one of
    [transform_csv]. *)
Lemma endswith_dot_csv_gz (file : string) :
  Str.endswith file ".csv.gz" = true → recognized file = true.
Proof.
  intros [a ->]%endswith_inv. unfold recognized.
  replace (a +:+ ".csv.gz") with ((a +:+ ".") +:+ "csv.gz")
    by (by rewrite append_assoc).
  by rewrite endswith_app.
Qed.

Lemma downloaded_keys_none (evs : list event) :
  Forall not_download evs → downloaded_keys evs = [].
Proof.
  induction 1 as [|e evs He _ IH]; [done|].
  destruct e; cbn in *; done.
Qed.

Lemma downloaded_keys_app (e1 e2 : list event) :
  downloaded_keys (e1 ++ e2) = downloaded_keys e1 ++ downloaded_keys e2.
Proof. apply omap_app. Qed.

Section Enumerator.
Context `{Collaborators} `{ObjectListing}.

(** After the download, no step downloads. *)
Lemma archive_and_widen_no_download
    (file csv_path wide_path archive wide location_id : string) :
  preserves (only_events not_download)
    (archive_and_widen file csv_path wide_path archive wide location_id).
Proof.
  apply archive_and_widen_preserves; [apply _|..].
  - intros A m Hm. apply preserves_trace_same. intros w.
    by destruct (Hm w) as [files ->].
  - by apply upload_with_retry_only; [apply sleepable_default|..].
  - by apply upload_with_retry_only; [apply sleepable_default|..].
  - by apply delete_object_only.
Qed.

Lemma try_block_downloads (file city location_id year : string) (n : nat)
    (w : World) :
  ∃ evs, trace (try_block file city location_id year n w).2 = trace w ++ evs
    ∧ downloaded_keys evs = [file].
Proof.
  assert (Hrest : ∀ path (rest : M unit),
    preserves (only_events not_download) rest →
    ∃ evs, trace ((download_file file path ;; rest) w).2 = trace w ++ evs
      ∧ downloaded_keys evs = [file]).
  { intros path rest Hrest. rewrite bind_run.
    destruct (download_file_effect file path w) as (ok & _ & _ & Htr).
    destruct (download_file file path w) as [[[]|e] w1]; cbn [snd] in *.
    - destruct (Hrest w1) as (evs & Htr' & Hnone).
      exists (EvDownload file path ok :: evs). split.
      + by rewrite Htr', Htr, <- app_assoc.
      + cbn. by rewrite downloaded_keys_none.
    - by exists [EvDownload file path ok]. }
  unfold try_block, gz_body, csv_body.
  destruct (Str.endswith file "csv.gz"); apply Hrest.
  - apply preserves_bind; [apply _| |intros _].
    + apply preserves_trace_same. intros w0.
      by destruct (gunzip_file_local (gz_path_at n) (csv_path_at n) w0)
        as [files ->].
    + apply archive_and_widen_no_download.
  - apply archive_and_widen_no_download.
Qed.

(** A call of the transform unit makes one download attempt, of its own
    key, when the key is recognized, and none otherwise. *)
Lemma transform_csv_downloads (file city location_id year : string)
    (w : World) :
  ∃ w' evs,
    transform_csv file city location_id year w = (Ok (), w')
    ∧ trace w' = trace w ++ evs
    ∧ downloaded_keys evs = if recognized file then [file] else [].
Proof.
  destruct (transform_csv_returns file city location_id year w) as [w' Hrun].
  exists w'.
  destruct (transform_csv_after_block file city location_id year w)
    as [(-> & r & w1 & logged & Hblock & _ & Htrace & Hlogged)
       |(-> & _ & Htrace)]; rewrite Hrun in Htrace; cbn [snd] in Htrace.
  - destruct (try_block_downloads file city location_id year (uuids w)
                (after_draws w)) as (evs & Htr & Hkeys).
    rewrite Hblock in Htr. cbn [snd trace after_draws set_uuids] in Htr.
    exists (evs ++ logged). split; [done|]. split.
    + by rewrite Htrace, Htr, app_assoc.
    + rewrite downloaded_keys_app, Hkeys.
      by destruct Hlogged as [->| ->].
  - exists []. by rewrite app_nil_r.
Qed.

Lemma process_files_downloads (city location_id year : string)
    (files : list string) :
  ∀ w, ∃ w' evs,
    process_files files city location_id year w = (Ok (), w')
    ∧ trace w' = trace w ++ evs
    ∧ downloaded_keys evs
      = List.filter (λ file, Str.endswith file ".csv.gz") files.
Proof.
  induction files as [|file files IH]; intros w.
  { exists w, []. by rewrite app_nil_r. }
  cbn [process_files List.filter]. rewrite bind_run.
  destruct (Str.endswith file ".csv.gz") eqn:Hgz.
  - destruct (transform_csv_downloads file city location_id year w)
      as (w1 & e1 & -> & Htr1 & Hkeys1).
    rewrite (endswith_dot_csv_gz file Hgz) in Hkeys1.
    destruct (IH w1) as (w2 & e2 & -> & Htr2 & Hkeys2).
    exists w2, (e1 ++ e2). split; [done|]. split.
    + by rewrite Htr2, Htr1, app_assoc.
    + by rewrite downloaded_keys_app, Hkeys1, Hkeys2.
  - unfold ret at 1. apply IH.
Qed.

(** X10.  [process_year_folder] lists the year prefix once.  When the
    listing request fails, the error reaches the caller and no object is
    touched.  Otherwise the call returns normally, whatever happens to the
    files, and it attempts, in listing order and once each, exactly the
    listed keys that end in [.csv.gz]; a plain [.csv] object is skipped. *)
Theorem process_year_folder_attempts (city location_id year : string)
    (w : World) :
  let prefix := city +:+ "/" +:+ location_id +:+ "/" +:+ year +:+ "/" in
  let run := process_year_folder city location_id year w in
  if next_fault w
  then run = (Raise S3Error, set_faults (tail (faults w)) w)
  else run.1 = Ok ()
       ∧ downloaded_keys (new_events w run.2)
         = List.filter (λ file, Str.endswith file ".csv.gz")
             (Contents (list_objects (s3 w) prefix None)).
Proof.
  intros prefix run. unfold run, process_year_folder, list_objects_v2.
  rewrite bind_run. unfold next_fault.
  destruct (faults w) as [|[] rest] eqn:Hfaults.
  - rewrite s3_request_ok by by rewrite Hfaults. world_fields.
    destruct (process_files_downloads city location_id year
                (Contents (list_objects (s3 w) prefix None))
                (set_faults (tail (faults w)) w))
      as (w' & evs & Hrun & Htr & Hkeys).
    unfold set_faults in Hrun. fold prefix. rewrite Hrun.
    cbn [fst snd]. split; [done|].
    by rewrite (new_events_app w w' evs).
  - by rewrite (s3_request_fault w rest).
  - rewrite s3_request_ok by by rewrite Hfaults. world_fields.
    destruct (process_files_downloads city location_id year
                (Contents (list_objects (s3 w) prefix None))
                (set_faults (tail (faults w)) w))
      as (w' & evs & Hrun & Htr & Hkeys).
    unfold set_faults in Hrun. fold prefix. rewrite Hrun.
    cbn [fst snd]. split; [done|].
    by rewrite (new_events_app w w' evs).
Qed.

Lemma index_from_end_snoc2 {A} (l : list A) (x y : A) (w : World) :
  index_from_end (l ++ [x; y]) 2 w = (Ok x, w).
Proof.
  unfold index_from_end. rewrite length_app. cbn [length].
  rewrite decide_True by lia.
  replace (length l + 2 - 2)%nat with (length l + 0)%nat by lia.
  by rewrite lookup_app_r, Nat.add_0_r, Nat.sub_diag by lia.
Qed.

Lemma years_of_prefixes (dir : string) (years : list string) (w : World) :
  Forall (λ year, Str.mem "/" year = false) years →
  years_of ((λ year, dir +:+ "/" +:+ year +:+ "/") <$> years) w
  = (Ok years, w).
Proof.
  induction 1 as [|year years Hyear _ IH]; [done|].
  cbn [fmap list_fmap years_of]. rewrite bind_run.
  rewrite append_cons, append_nil, split_cat.
  rewrite <- (append_empty_r "/"), append_cons, append_nil, split_cat.
  rewrite (split_plain year) by done.
  cbn [Str.split app]. rewrite index_from_end_snoc2.
  rewrite bind_run. fold (list_fmap _ _ (λ year, dir +:+ "/" +:+ year +:+ "/")).
  by rewrite IH.
Qed.

(** X11.  When the listing of [{city}/{location_id}/] answers with the
    common prefixes [{city}/{location_id}/{year}/] of some slash-free
    years, [get_years] returns these years in the order of the answer;
    when the request fails, the error reaches the caller. *)
Theorem get_years_of_listing (city location_id : string)
    (years : list string) (w : World) :
  CommonPrefixes
    (list_objects (s3 w) (city +:+ "/" +:+ location_id +:+ "/") (Some "/"))
  = (λ year, (city +:+ "/" +:+ location_id) +:+ "/" +:+ year +:+ "/")
    <$> years →
  Forall (λ year, Str.mem "/" year = false) years →
  get_years city location_id w
  = if next_fault w
    then (Raise S3Error, set_faults (tail (faults w)) w)
    else (Ok years, set_faults (tail (faults w)) w).
Proof.
  intros Hlisting Hyears. unfold get_years, list_objects_v2, next_fault.
  rewrite bind_run.
  destruct (faults w) as [|[] rest] eqn:Hfaults.
  - rewrite s3_request_ok by by rewrite Hfaults. world_fields.
    by rewrite Hlisting, years_of_prefixes, Hfaults.
  - by rewrite (s3_request_fault w rest).
  - rewrite s3_request_ok by by rewrite Hfaults. world_fields.
    by rewrite Hlisting, years_of_prefixes, Hfaults.
Qed.

End Enumerator.

(** ** Retry passes *)

Lemma code_points_cons (c : ascii) (s : string) :
  Str.code_points (String c s)
  = match Str.code_points s with
    | cp :: rest =>
        if Str.starts_continued cp then String c cp :: rest
        else String c "" :: cp :: rest
    | [] => [String c ""]
    end.
Proof. reflexivity. Qed.

Lemma code_points_canonical (s : string) : canonical (Str.code_points s).
Proof.
  induction s as [|c s [Hchunks Hleads]]; [by split|].
  cbn [Str.code_points].
  destruct (Str.code_points s) as [|cp rest]; [by repeat constructor|].
  apply Forall_cons in Hchunks as [Hcp Hrest]. cbn [tail] in Hleads.
  destruct (Str.starts_continued cp) eqn:Hcont.
  - split; [|done]. constructor; [|done].
    destruct cp as [|d t]; [done|]. cbn in *. by rewrite Hcont, Hcp.
  - split; [by repeat constructor|]. by constructor.
Qed.

Lemma code_points_head (s : string) :
  match Str.code_points s with
  | [] => s = ""
  | cp :: _ => Str.starts_continued cp = Str.starts_continued s
  end.
Proof.
  destruct s as [|c s]; [done|]. cbn [Str.code_points].
  destruct (Str.code_points s) as [|cp rest]; [done|].
  by destruct (Str.starts_continued cp).
Qed.

Lemma code_points_chunk (c : ascii) (t s : string) :
  all_continued t = true →
  Str.starts_continued s = false →
  Str.code_points (String c (t +:+ s)) = String c t :: Str.code_points s.
Proof.
  intros Ht Hs. revert c. induction t as [|d t IH]; intros c.
  - rewrite append_nil. cbn [Str.code_points].
    pose proof (code_points_head s) as Hhead.
    destruct (Str.code_points s) as [|cp rest]; [done|].
    by rewrite Hhead, Hs.
  - cbn in Ht. apply andb_true_iff in Ht as [Hd Ht].
    rewrite append_cons, code_points_cons, (IH Ht d). cbn. by rewrite Hd.
Qed.

Lemma join_leads (cps : list string) :
  Forall chunk cps →
  Forall (λ cp, Str.starts_continued cp = false) cps →
  Str.starts_continued (Str.join cps) = false.
Proof.
  intros Hchunks Hleads. destruct cps as [|[|c t] rest]; [done| |].
  - by apply Forall_cons in Hchunks as [[] _].
  - by apply Forall_cons in Hleads as [Hc _].
Qed.

(** Cutting a string into code points loses nothing, and the code points
    of a joined list are the list. *)
Lemma join_code_points (s : string) : Str.join (Str.code_points s) = s.
Proof.
  induction s as [|c s IH]; [done|]. cbn [Str.code_points].
  destruct (Str.code_points s) as [|cp rest]; [by rewrite <- IH|].
  destruct (Str.starts_continued cp); by rewrite <- IH.
Qed.

Lemma code_points_join (cps : list string) :
  canonical cps → Str.code_points (Str.join cps) = cps.
Proof.
  intros [Hchunks Hleads].
  induction cps as [|cp rest IH]; [done|].
  apply Forall_cons in Hchunks as [Hcp Hrest]. cbn [tail] in Hleads.
  destruct cp as [|c t]; [done|]. cbn in Hcp.
  cbn [Str.join foldr]. rewrite append_cons.
  rewrite code_points_chunk; [|done|by apply join_leads].
  f_equal. apply IH; [done|].
  destruct rest; [done|]. by apply Forall_cons in Hleads as [_ ?].
Qed.

Lemma lstrip_points_canonical (cps : list string) :
  canonical cps → canonical (Str.lstrip_points cps).
Proof.
  induction cps as [|cp rest IH]; [done|]. intros Hcan.
  cbn [Str.lstrip_points]. destruct (Str.isspace cp); [|done].
  apply IH. destruct Hcan as [Hchunks Hleads].
  apply Forall_cons in Hchunks as [_ Hrest]. split; [done|].
  destruct rest; [done|]. by apply Forall_cons in Hleads as [_ ?].
Qed.

Lemma rstrip_points_Forall (P : string → Prop) (cps : list string) :
  Forall P cps → Forall P (Str.rstrip_points cps).
Proof.
  induction 1 as [|cp rest Hcp Hrest IH]; [done|]. cbn [Str.rstrip_points].
  destruct (Str.rstrip_points rest).
  - destruct (Str.isspace cp); by repeat constructor.
  - by constructor.
Qed.

Lemma rstrip_points_canonical (cps : list string) :
  canonical cps → canonical (Str.rstrip_points cps).
Proof.
  intros [Hchunks Hleads]. split; [by apply rstrip_points_Forall|].
  destruct cps as [|cp rest]; [done|]. cbn [tail Str.rstrip_points] in *.
  apply (rstrip_points_Forall _ _) in Hleads.
  destruct (Str.rstrip_points rest); [by destruct (Str.isspace cp)|done].
Qed.

Lemma rstrip_points_idem (cps : list string) :
  Str.rstrip_points (Str.rstrip_points cps) = Str.rstrip_points cps.
Proof.
  induction cps as [|cp rest IH]; [done|]. cbn [Str.rstrip_points].
  destruct (Str.rstrip_points rest) as [|d r] eqn:Hrest.
  - destruct (Str.isspace cp) eqn:Hcp; [done|].
    cbn [Str.rstrip_points]. by rewrite Hcp.
  - cbn [Str.rstrip_points] in *. by rewrite IH.
Qed.

Lemma lstrip_points_head (cps : list string) :
  Str.lstrip_points cps = []
  ∨ ∃ cp rest, Str.lstrip_points cps = cp :: rest ∧ Str.isspace cp = false.
Proof.
  induction cps as [|cp rest IH]; [by left|]. cbn [Str.lstrip_points].
  destruct (Str.isspace cp) eqn:Hcp; [done|]. right. eauto.
Qed.

Lemma rstrip_points_head (cp : string) (rest : list string) :
  Str.isspace cp = false →
  ∃ r, Str.rstrip_points (cp :: rest) = cp :: r.
Proof.
  intros Hcp. cbn [Str.rstrip_points].
  destruct (Str.rstrip_points rest); [|eauto].
  rewrite Hcp. eauto.
Qed.

(** [strip] is idempotent: the lines of the ledger, stripped when read,
    are not changed by the second [strip] of line 156. *)
Lemma strip_idem (s : string) : Str.strip (Str.strip s) = Str.strip s.
Proof.
  unfold Str.strip. rewrite code_points_join
    by apply rstrip_points_canonical, lstrip_points_canonical,
       code_points_canonical.
  destruct (lstrip_points_head (Str.code_points s))
    as [->|(cp & rest & -> & Hcp)]; [done|].
  destruct (rstrip_points_head cp rest Hcp) as [r Hr]. rewrite Hr.
  cbn [Str.lstrip_points]. rewrite Hcp, <- Hr.
  by rewrite rstrip_points_idem.
Qed.


Section RetryPasses.
Context `{Collaborators}.

(** One turn of the pass: an [IndexError] before anything is done on a
    line with fewer than three dash-separated fields, and otherwise one
    attempt of the transform unit, counted as a success. *)
Lemma retry_one_cases (failed_file : string) (w : World) :
  ((length (Str.split failed_file "-") < 3)%nat
   ∧ retry_one failed_file w = (Raise IndexError, w))
  ∨ ((3 ≤ length (Str.split failed_file "-"))%nat
     ∧ ∃ w' evs,
         retry_one failed_file w = (Ok true, w')
         ∧ trace w' = trace w ++ evs
         ∧ downloaded_keys evs
           = List.filter recognized [Str.strip failed_file]).
Proof.
  unfold retry_one, parse_failed_file. rewrite bind_run.
  destruct (Str.split failed_file "-") as [|f0 [|f1 [|f2 fields]]] eqn:Hsplit;
    [left; split; [cbn; lia|done]..|right].
  split; [cbn; lia|].
  cbn -[attempts Str.slice_to]. unfold mbind, M_bind, bind, ret.
  destruct (transform_csv_downloads (Str.strip failed_file) "lyon" f1
              (Str.slice_to 4 f2) w) as (w' & evs & Hrun & Htr & Hkeys).
  exists w', evs. cbn [attempts]. rewrite Hrun. repeat split; [done|].
  rewrite Hkeys. cbn. by destruct (recognized (Str.strip failed_file)).
Qed.


Lemma retry_each_downloads (failed_files_list : list string) :
  ∀ w,
    Forall (λ line : string, (3 ≤ length (Str.split line "-"))%nat)
           failed_files_list →
    ∃ w' evs,
      retry_each failed_files_list [] w = (Ok [], w')
      ∧ trace w' = trace w ++ evs
      ∧ downloaded_keys evs
        = List.filter recognized (Str.strip <$> failed_files_list).
Proof.
  induction failed_files_list as [|failed_file rest IH]; intros w Hlines.
  { exists w, []. by rewrite app_nil_r. }
  apply Forall_cons in Hlines as [Hline Hrest].
  cbn [retry_each]. rewrite bind_run.
  destruct (retry_one_cases failed_file w)
    as [(Hshort & _)|(_ & w1 & e1 & -> & Htr1 & Hkeys1)]; [lia|].
  destruct (IH w1 Hrest) as (w2 & e2 & -> & Htr2 & Hkeys2).
  exists w2, (e1 ++ e2). split; [done|]. split.
  - by rewrite Htr2, Htr1, app_assoc.
  - rewrite downloaded_keys_app, Hkeys1, Hkeys2. cbn.
    by destruct (recognized (Str.strip failed_file)).
Qed.


(** X13.  On a non-empty ledger whose lines all have their three
    dash-separated fields, the loop of [main] runs one retry pass and
    stops at the second probe: it returns normally with the world the
    pass left, in which the ledger is an empty file. *)
Theorem main_retry_single_pass (content : string) (w : World) :
  ledger w = Some content →
  content ≠ "" →
  Forall (λ line : string, (3 ≤ length (Str.split line "-"))%nat)
         (Str.strip <$> file_lines content) →
  ∃ w', retry_failed_files w = (Ok (), w')
    ∧ main_retry w = (Ok (), w')
    ∧ ledger w' = Some "".
Proof.
  intros Hledger Hcontent Hlines.
  destruct (retry_failed_files_empties_ledger content w Hledger Hlines)
    as (w' & Hpass & Hempty).
  exists w'. split; [done|]. split; [|done].
  unfold main_retry. cbn [retry_passes]. unfold retry_pass at 1.
  rewrite bind_run. unfold getsize_ledger at 1. rewrite Hledger.
  destruct content as [|c content]; [done|].
  cbn [String.length Nat.eqb]. rewrite bind_run, Hpass.
  unfold ret at 1. unfold retry_pass. rewrite bind_run.
  unfold getsize_ledger. by rewrite Hempty.
Qed.

(** X14.  In a retry pass over a ledger whose lines all have their three
    dash-separated fields, every line that is a recognized key gets one
    download attempt and no more, in the order of the ledger: no key is
    attempted a second time, whatever the outcome of the first. *)
Theorem retry_pass_attempts_once (content : string) (w : World) :
  ledger w = Some content →
  Forall (λ line : string, (3 ≤ length (Str.split line "-"))%nat)
         (Str.strip <$> file_lines content) →
  let run := retry_failed_files w in
  run.1 = Ok ()
  ∧ downloaded_keys (new_events w run.2)
    = List.filter recognized (Str.strip <$> file_lines content).
Proof.
  intros Hledger Hlines run. unfold run, retry_failed_files.
  rewrite bind_run. unfold read_log_failure. rewrite Hledger, bind_run.
  destruct (retry_each_downloads _ w Hlines) as (w' & evs & -> & Htr & Hkeys).
  cbn [write_ledger fst snd]. split; [done|].
  rewrite (new_events_app w _ evs) by done.
  rewrite Hkeys. f_equal. rewrite <- list_fmap_compose.
  apply list_fmap_ext. intros _ line _. apply strip_idem.
Qed.

End RetryPasses.

(** ** The ledger during the batch *)

Section LedgerGrowth.
Context `{Collaborators} `{ObjectListing}.

Lemma delete_object_ledger (key : string) (w : World) :
  ledger (delete_object key w).2 = ledger w.
Proof.
  unfold delete_object. destruct (s3_request_cases w) as (r & rest & ->).
  by destruct r as [[]|e].
Qed.

Lemma transform_csv_extends (file city location_id year : string) :
  preserves ledger_extends (transform_csv file city location_id year).
Proof.
  intros w. destruct (recognized file) eqn:Hrec.
  - destruct (try_block file city location_id year (uuids w) (after_draws w))
      as [r w1] eqn:Hblock.
    rewrite (transform_csv_run _ _ _ _ _ _ _ Hrec Hblock). cbn [snd].
    assert (Hgrow : ledger_extends w w1).
    { pose proof (try_block_preserves ledger_extends
                    file city location_id year (uuids w)) as Hframe.
      specialize (Hframe
        ltac:(intros A m Hm; apply preserves_ledger_same; intros w0;
              by destruct (Hm w0) as [files ->])
        ltac:(intros path; apply preserves_ledger_same; intros w0;
              by destruct (download_file_effect file path w0)
                as (ok & _ & -> & _))
        ltac:(intros path; apply upload_with_retry_extends,
                sleepable_default)
        ltac:(intros path; apply upload_with_retry_extends,
                sleepable_default)
        ltac:(apply preserves_ledger_same, delete_object_ledger)
        (after_draws w)).
      by rewrite Hblock in Hframe. }
    destruct r as [[]|e]; [exact Hgrow|].
    etrans; [exact Hgrow|]. exact (log_failure_extends file w1).
  - rewrite transform_csv_other_keys_run by done.
    split; [|done]. exists "". cbn. by rewrite append_empty_r.
Qed.

Lemma process_files_extends (city location_id year : string)
    (files : list string) :
  preserves ledger_extends (process_files files city location_id year).
Proof.
  induction files as [|file files IH]; [apply preserves_ret; apply _|].
  cbn [process_files]. apply preserves_bind; [apply _| |by intros _].
  apply preserves_if; [apply transform_csv_extends|].
  apply preserves_ret; apply _.
Qed.

(** X15.  A call of [transform_csv] only ever appends to the ledger: the
    text the ledger held before the call is the beginning of the text it
    holds afterwards, and a ledger file that existed still exists. *)
Theorem transform_csv_keeps_ledger (file city location_id year : string)
    (w : World) :
  let w' := (transform_csv file city location_id year w).2 in
  (∃ more, default "" (ledger w') = default "" (ledger w) +:+ more)
  ∧ (is_Some (ledger w) → is_Some (ledger w')).
Proof. exact (transform_csv_extends file city location_id year w). Qed.

(** X16.  So does a call of [process_year_folder], over all the files of
    the year: no failure recorded earlier is lost during the batch. *)
Theorem process_year_folder_keeps_ledger (city location_id year : string)
    (w : World) :
  let w' := (process_year_folder city location_id year w).2 in
  (∃ more, default "" (ledger w') = default "" (ledger w) +:+ more)
  ∧ (is_Some (ledger w) → is_Some (ledger w')).
Proof.
  unfold process_year_folder, list_objects_v2. rewrite bind_run.
  destruct (s3_request_cases w) as (r & rest & ->).
  destruct r as [[]|e]; cbn [snd].
  - exact (process_files_extends city location_id year _
             (set_faults rest w)).
  - split; [|done]. exists "". cbn. by rewrite append_empty_r.
Qed.

End LedgerGrowth.

(** ** The further properties on sample runs *)

(** [read_after_log_failure]: a second key, with a no-break space
    (U+00A0) and a blank before it and a blank and a next-line character
    (U+0085) after it, is logged after [Sample.key]. *)
Lemma read_after_log_failure_witness :
  let w := Sample.world ∅ (Some (ledger_text [Sample.key])) [] in
  let file := Str.utf8 [194; 160] +:+ " "
              +:+ "lyon/wide/3647/2022/location-3647-20220102.csv"
              +:+ " " +:+ Str.utf8 [194; 133] in
  read_log_failure (log_failure file w).2
  = (Ok [Sample.key; "lyon/wide/3647/2022/location-3647-20220102.csv"],
     (log_failure file w).2).
Proof.
  intros w file.
  apply (read_after_log_failure [Sample.key] file w).
  - by left.
  - by repeat constructor.
Defined.

(** [read_after_write_ledger] on two keys. *)
Lemma read_after_write_ledger_witness :
  let w := Sample.world ∅ None [] in
  let files := [Sample.key; "lyon/3647/2022/location-3647-20220102.csv.gz"] in
  read_log_failure (write_ledger files w).2
  = (Ok files, (write_ledger files w).2).
Proof.
  intros w files. apply (read_after_write_ledger files w).
  by repeat constructor.
Defined.

(** [upload_with_retry_absorbs_faults]: two faults, then a request that
    goes through, then a fault that the call does not meet. *)
Lemma upload_with_retry_absorbs_faults_witness :
  let w := Sample.staged "/tmp/temp_b.csv" "datetime,parameter,value"
             [true; true; false; true] in
  let run := upload_with_retry "/tmp/temp_b.csv" "lyon/archive/x.csv" 5 2 w in
  run.1 = Ok ()
  ∧ s3 run.2 = <[ "lyon/archive/x.csv" := "datetime,parameter,value" ]> (s3 w)
  ∧ ledger run.2 = ledger w
  ∧ faults run.2 = [true]
  ∧ new_events w run.2
    = [EvUpload "/tmp/temp_b.csv" "lyon/archive/x.csv" false; EvSleep 2;
       EvUpload "/tmp/temp_b.csv" "lyon/archive/x.csv" false; EvSleep 2;
       EvUpload "/tmp/temp_b.csv" "lyon/archive/x.csv" true].
Proof.
  intros w.
  apply (upload_with_retry_absorbs_faults "/tmp/temp_b.csv"
           "lyon/archive/x.csv" "datetime,parameter,value" 5 2 2
           [false; true] w);
    [unfold sleepable, sleep_max; lia
    |reflexivity|reflexivity|discriminate|lia].
Defined.

(** [upload_with_retry_exhausted]: five faults, then a quiet network. *)
Lemma upload_with_retry_exhausted_witness :
  let w := Sample.staged "/tmp/temp_b.csv" "datetime,parameter,value"
             [true; true; true; true; true; false] in
  let run := upload_with_retry "/tmp/temp_b.csv" "lyon/archive/x.csv" 5 2 w in
  run.1 = Ok ()
  ∧ s3 run.2 = s3 w
  ∧ ledger run.2 = Some ("lyon/archive/x.csv" +:+ String LF "")
  ∧ faults run.2 = [false]
  ∧ upload_outcomes (new_events w run.2)
    = [false; false; false; false; false].
Proof.
  intros w.
  apply (upload_with_retry_exhausted "/tmp/temp_b.csv" "lyon/archive/x.csv"
           "datetime,parameter,value" 5 2 [false] w);
    [unfold sleepable, sleep_max; lia|lia|reflexivity|reflexivity].
Defined.

(** [upload_with_retry_missing_file]: an empty scratch directory, a
    ledger that holds a key already and a network that would fail. *)
Lemma upload_with_retry_missing_file_witness :
  let w := Sample.world ∅ (Some (Sample.key +:+ String LF "")) [true; true] in
  let run := upload_with_retry "/tmp/temp_b.csv" "lyon/archive/x.csv" 5 2 w in
  run.1 = Ok ()
  ∧ s3 run.2 = s3 w
  ∧ faults run.2 = [true; true]
  ∧ ledger run.2
    = Some (Sample.key +:+ String LF ""
            +:+ "lyon/archive/x.csv" +:+ String LF "")
  ∧ new_events w run.2
    = [EvUpload "/tmp/temp_b.csv" "lyon/archive/x.csv" false; EvSleep 2;
       EvUpload "/tmp/temp_b.csv" "lyon/archive/x.csv" false; EvSleep 2;
       EvUpload "/tmp/temp_b.csv" "lyon/archive/x.csv" false; EvSleep 2;
       EvUpload "/tmp/temp_b.csv" "lyon/archive/x.csv" false; EvSleep 2;
       EvUpload "/tmp/temp_b.csv" "lyon/archive/x.csv" false;
       EvLogFailure "lyon/archive/x.csv"].
Proof.
  intros w.
  apply (upload_with_retry_missing_file "/tmp/temp_b.csv"
           "lyon/archive/x.csv" 5 2 w);
    [unfold sleepable, sleep_max; lia|lia|reflexivity].
Defined.

(** [upload_with_retry_negative_delay]: a delay of [-1] and a network
    that fails the first request. *)
Lemma upload_with_retry_negative_delay_witness :
  let w := Sample.staged "/tmp/temp_b.csv" "datetime,parameter,value"
             [true; false] in
  let run := upload_with_retry "/tmp/temp_b.csv" "lyon/archive/x.csv" 5 (-1)
               w in
  run.1 = Raise ValueError
  ∧ s3 run.2 = s3 w
  ∧ ledger run.2 = ledger w
  ∧ new_events w run.2
    = [EvUpload "/tmp/temp_b.csv" "lyon/archive/x.csv" false].
Proof.
  intros w.
  apply (upload_with_retry_negative_delay "/tmp/temp_b.csv"
           "lyon/archive/x.csv" 5 (-1) w);
    [unfold sleep_max; lia|lia|right; reflexivity].
Defined.

(** [transform_csv_fault_free] on the day of readings. *)
Lemma transform_csv_fault_free_witness :
  let w := Sample.world {[ Sample.key := Sample.readings ]} None [] in
  let run := transform_csv (H := Sample.env) Sample.key "lyon" "3647" "2022" w in
  run.1 = Ok ()
  ∧ s3 run.2 !! Sample.key = None
  ∧ ledger run.2 = None
  ∧ upload_targets (new_events w run.2)
    = ["lyon/archive/3647/2022/location-3647-20220101.csv";
       "lyon/wide/3647/2022/location-3647-20220101.csv"]
  ∧ deleted_keys (new_events w run.2) = [Sample.key; Sample.key]
  ∧ logged_keys (new_events w run.2) = [].
Proof.
  intros w.
  destruct (Sample.unzip Sample.readings) as [csv|] eqn:Hcsv;
    [|vm_compute in Hcsv; discriminate Hcsv].
  destruct (Sample.parse csv) as [df|] eqn:Hdf;
    [|vm_compute in Hcsv; injection Hcsv as <-;
      vm_compute in Hdf; discriminate Hdf].
  destruct (Sample.add_sensor df "3647") as [wd|] eqn:Hwd;
    [|vm_compute in Hcsv; injection Hcsv as <-;
      vm_compute in Hdf; injection Hdf as <-;
      vm_compute in Hwd; discriminate Hwd].
  assert (Hrows : df_empty df = false).
  { vm_compute in Hcsv. injection Hcsv as <-.
    vm_compute in Hdf. injection Hdf as <-. reflexivity. }
  destruct (transform_csv_fault_free (H := Sample.env)
              Sample.key "lyon" "3647" "2022" Sample.readings csv df wd
              Hdf Hrows Hwd Hcsv w eq_refl eq_refl eq_refl)
    as (Hret & _ & Hgone & Hledger & Hup & Hdel & Hlog).
  repeat split; assumption.
Defined.


(** [transform_csv_bucket_frame]: the readings of the next day are not
    touched while those of the day are processed. *)
Lemma transform_csv_bucket_frame_witness :
  let other := "lyon/3647/2022/location-3647-20220102.csv.gz" in
  let w := Sample.world {[ Sample.key := Sample.readings;
                           other := Sample.readings ]} None [] in
  s3 (transform_csv (H := Sample.env) Sample.key "lyon" "3647" "2022" w).2
    !! other
  = s3 w !! other.
Proof.
  intros other w.
  apply (transform_csv_bucket_frame (H := Sample.env)
           Sample.key "lyon" "3647" "2022" other w);
    intros Heq; vm_compute in Heq; discriminate Heq.
Defined.

(** [get_years_of_listing] on a bucket with two years of location 3647. *)
Lemma get_years_of_listing_witness :
  let w := Sample.world
             {[ "lyon/3647/2022/location-3647-20220101.csv.gz" := "x";
                "lyon/3647/2023/location-3647-20230101.csv.gz" := "y" ]}
             None [] in
  @get_years SampleListing.listing "lyon" "3647" w
  = (Ok ["2023"; "2022"], set_faults (tail (faults w)) w).
Proof.
  intros w.
  apply (@get_years_of_listing SampleListing.listing
           "lyon" "3647" ["2023"; "2022"] w).
  - vm_compute. reflexivity.
  - by repeat constructor.
Defined.


(** [main_retry_single_pass] on a ledger that holds [Sample.key], whose
    object is missing. *)
Lemma main_retry_single_pass_witness :
  let w := Sample.world ∅ (Some (Sample.key +:+ String LF "")) [] in
  ∃ w', retry_failed_files (H := Sample.env) w = (Ok (), w')
    ∧ main_retry (H := Sample.env) w = (Ok (), w')
    ∧ ledger w' = Some "".
Proof.
  intros w.
  apply (main_retry_single_pass (H := Sample.env)
           (Sample.key +:+ String LF "") w).
  - reflexivity.
  - discriminate.
  - vm_compute. apply Forall_cons; split; [lia|constructor].
Defined.

(** [retry_pass_attempts_once] on a ledger with [Sample.key] and a key the
    transform unit does not recognize. *)
Lemma retry_pass_attempts_once_witness :
  let content := Sample.key +:+ String LF ""
                 +:+ "lyon/3647/2022/location-3647-notes.txt"
                 +:+ String LF "" in
  let w := Sample.world ∅ (Some content) [] in
  let run := retry_failed_files (H := Sample.env) w in
  run.1 = Ok ()
  ∧ downloaded_keys (new_events w run.2) = [Sample.key].
Proof.
  intros content w.
  apply (retry_pass_attempts_once (H := Sample.env) content w).
  - reflexivity.
  - vm_compute. repeat (apply Forall_cons; split; [lia|]). constructor.
Defined.

(** [targets_regular] on [location-3647-20220101.csv.gz]. *)
Lemma targets_regular_witness :
  archive_file Sample.key "lyon" "3647" "2022"
  = archive_target "lyon" "3647" "2022" "location-3647-20220101.csv.gz"
  ∧ wide_file Sample.key "lyon" "3647" "2022"
    = wide_target "lyon" "3647" "2022" "location-3647-20220101.csv.gz".
Proof.
  apply (targets_regular "lyon" "3647" "2022" "location-3647-20220101").
  - reflexivity.
  - intros a b Heq.
    repeat (destruct a as [|? a];
            [vm_compute in Heq; first [discriminate Heq|by simplify_eq]
            |vm_compute in Heq;
             first [discriminate Heq|injection Heq as _ Heq]]).
Defined.
